(** * polyx-pulse-backend: the token store, the feed handler, the poller,
      the reconnect logic and the recency query of [src/index.ts]

    The development embeds the TypeScript of [src/index.ts] (and of the
    second revision of that file reproduced in [README.md], which adds
    the metadata image lookup) as Rocq functions and proves the
    properties the specification states about them.

    - JavaScript numbers are IEEE-754 binary64 values: [spec_float] with
      [prec = 53] and [emax = 1024], the operations being those of
      [SpecFloat] (round to nearest, ties to even).
    - The values [JSON.parse] returns are the inductive [JValue]; arrays
      and objects carry the identity of their allocation, which is what
      [===] compares.
    - [Date.now()] is an integer number of milliseconds, a [Z].
    - The module-level variable [tokens] is threaded through the handlers
      by a state monad whose computations may throw.
    - A JavaScript string is the sequence of bytes of its UTF-8 encoding. *)

From Stdlib Require Import ZArith List String Ascii Bool Lia.
From Stdlib Require Import Floats.SpecFloat.
From stdpp Require Import base option list.

Set Warnings "-register-all".

Local Open Scope string_scope.
Local Open Scope Z_scope.

(* ================================================================= *)
(** ** JavaScript numbers *)

Definition num := spec_float.

Definition prec : Z := 53.
Definition emax : Z := 1024.

Definition num_mul : num -> num -> num := SFmul prec emax.
Definition num_div : num -> num -> num := SFdiv prec emax.
(** [a === b] on two numbers: [NaN] differs from itself, the two zeros
    are equal. *)
Definition num_eqb : num -> num -> bool := SFeqb.

(** The number denoted by an integer literal. *)
Definition num_of_Z (z : Z) : num := binary_normalize prec emax z 0 false.

Definition NaN : num := S754_nan.
Definition num_zero : num := S754_zero false.

Definition is_nan (n : num) : bool :=
  match n with S754_nan => true | _ => false end.

Definition is_zero (n : num) : bool :=
  match n with S754_zero _ => true | _ => false end.

(* ================================================================= *)
(** ** JavaScript values, as [JSON.parse] builds them *)

Inductive JValue : Type :=
| JUndefined
| JNull
| JBool (b : bool)
| JNum (n : num)
| JStr (s : string)
| JArr (ref : nat) (elts : list JValue)
| JObj (ref : nat) (fields : list (string * JValue)).

(** ToBoolean: what [if (v)], [v ? a : b] and [v || w] test. *)
Definition truthy (v : JValue) : bool :=
  match v with
  | JUndefined | JNull => false
  | JBool b => b
  | JNum n => negb (is_zero n || is_nan n)
  | JStr s => negb (s =? "")%string
  | JArr _ _ | JObj _ _ => true
  end.

(** [a === b]. Two arrays or objects are equal when they are the same
    allocation. *)
Definition strict_eq (a b : JValue) : bool :=
  match a, b with
  | JUndefined, JUndefined => true
  | JNull, JNull => true
  | JBool x, JBool y => Bool.eqb x y
  | JNum x, JNum y => num_eqb x y
  | JStr x, JStr y => (x =? y)%string
  | JArr r _, JArr r' _ => Nat.eqb r r'
  | JObj r _, JObj r' _ => Nat.eqb r r'
  | _, _ => false
  end.

(** [a || b] *)
Definition js_or (a b : JValue) : JValue := if truthy a then a else b.

Fixpoint assoc (k : string) (fs : list (string * JValue)) : JValue :=
  match fs with
  | [] => JUndefined
  | (k', v) :: fs' => if (k =? k')%string then v else assoc k fs'
  end.

(** [v.k] for the property names this program reads, none of which is
    defined on a built-in prototype: [None] is the TypeError of reading
    a property of [null] or [undefined]. *)
Definition Get (v : JValue) (k : string) : option JValue :=
  match v with
  | JUndefined | JNull => None
  | JObj _ fs => Some (assoc k fs)
  | _ => Some JUndefined
  end.

(** The built-in conversions between strings and numbers, which the
    program calls and does not define. *)
Class Builtins := {
  StringToNumber : string -> num;   (* ToNumber applied to a string *)
  NumberToString : num -> string;   (* ToString applied to a number *)
  parseFloat : string -> num
}.

(** An object has a property of its own under the key [k]. *)
Definition has_own (k : string) (fs : list (string * JValue)) : bool :=
  existsb (λ kv, (k =? kv.1)%string) fs.

Section Coercions.
Context `{!Builtins}.

(** [String(v)], also what a template literal applies to its holes:
    [None] is the TypeError of ToPrimitive. An object built by
    [JSON.parse] converts through [Object.prototype.toString] unless it
    has a [toString] of its own, which is data and cannot be called; an
    array converts through [join], which converts its elements. *)
Fixpoint ToString (v : JValue) : option string :=
  match v with
  | JUndefined => Some "undefined"
  | JNull => Some "null"
  | JBool true => Some "true"
  | JBool false => Some "false"
  | JNum n => Some (NumberToString n)
  | JStr s => Some s
  | JArr _ l =>
      (fix join (l : list JValue) : option string :=
         match l with
         | [] => Some ""
         | x :: r =>
             match (match x with
                    | JUndefined | JNull => Some ""
                    | _ => ToString x
                    end) with
             | None => None
             | Some sx =>
                 match r with
                 | [] => Some sx
                 | _ :: _ =>
                     match join r with
                     | None => None
                     | Some sr => Some (sx ++ "," ++ sr)
                     end
                 end
             end
         end) l
  | JObj _ fs => if has_own "toString" fs then None else Some "[object Object]"
  end.

(** ToNumber, applied by [*] and [/] to their operands: [None] is the
    TypeError of ToPrimitive, thrown for the same values as by
    [ToString]. *)
Definition ToNumber (v : JValue) : option num :=
  match v with
  | JUndefined => Some NaN
  | JNull => Some num_zero
  | JBool true => Some (num_of_Z 1)
  | JBool false => Some num_zero
  | JNum n => Some n
  | JStr s => Some (StringToNumber s)
  | JArr _ _ => StringToNumber <$> ToString v
  | JObj _ fs => if has_own "toString" fs then None else Some NaN
  end.
End Coercions.

(* ================================================================= *)
(** ** Strings *)

(** [s.startsWith(p)] *)
Definition startsWith (s p : string) : bool := String.prefix p s.

Fixpoint drop_chars (n : nat) (s : string) : string :=
  match n, s with
  | O, _ => s
  | S n', String _ s' => drop_chars n' s'
  | S _, EmptyString => EmptyString
  end.

(** [s.replace(pat, rep)] with a string pattern: the first occurrence of
    [pat] is replaced ([rep] here is always the empty string, so no [$]
    sequence is involved). *)
Fixpoint replace (s pat rep : string) : string :=
  if String.prefix pat s then rep ++ drop_chars (String.length pat) s
  else match s with
       | EmptyString => EmptyString
       | String c s' => String c (replace s' pat rep)
       end.

(* ================================================================= *)
(** ** The store *)

(** [interface Token]. The fields hold what the code puts in them at run
    time: [message] and [item] are untyped JSON, so [address], [symbol],
    [name], [logo] and [createdAt] are values. *)
Record Token := {
  address : JValue;
  symbol : JValue;
  name : JValue;
  logo : JValue;
  price : num;
  marketCap : num;
  bondingProgress : option num;
  createdAt : JValue;
  fetchedAt : Z
}.

Definition MAX_AGE_MS : Z := 5 * 60 * 1000.
Definition MAX_TOKENS : nat := 100.

(** [cleanupOldTokens], [now] being the value of [Date.now()]. *)
Definition cleanupOldTokens (now : Z) (tokens : list Token) : list Token :=
  let cutoff := now - MAX_AGE_MS in
  filter (λ t, cutoff < fetchedAt t) tokens.

(** [addToken] *)
Definition addToken (token : Token) (tokens : list Token) : list Token :=
  let tokens := filter (λ t, ¬ strict_eq (address t) (address token)) tokens in
  let tokens := token :: tokens in
  if (MAX_TOKENS <? length tokens)%nat then take MAX_TOKENS tokens else tokens.

(* ================================================================= *)
(** ** Handlers: state and exceptions *)

(** A handler body runs on the module-level [tokens] and either
    completes with a value or throws; what it did to [tokens] before
    throwing stays done. *)
Definition M (A : Type) : Type := list Token -> option A * list Token.

#[global] Instance M_ret : MRet M := λ A a ts, (Some a, ts).
#[global] Instance M_bind : MBind M := λ A B f m ts,
  match m ts with
  | (Some a, ts') => f a ts'
  | (None, ts') => (None, ts')
  end.

(** A step that cannot touch the store: [None] is a thrown exception. *)
Definition step {A} (o : option A) : M A := λ ts, (o, ts).
Definition throw {A} : M A := step None.
Definition update (f : list Token -> list Token) : M unit := λ ts, (Some tt, f ts).
Definition get_tokens_var : M (list Token) := λ ts, (Some ts, ts).
(** [try { m } catch (err) { }], the value being [d] when [m] threw. *)
Definition try_catch {A} (d : A) (m : M A) : M A :=
  λ ts, (Some (default d (fst (m ts))), snd (m ts)).
(** The store a handler leaves. *)
Definition run {A} (m : M A) (tokens : list Token) : list Token := snd (m tokens).

(** What [JSON.parse(text)] does: throw a SyntaxError or return a value. *)
Inductive parse_result := SyntaxError | Parsed (v : JValue).

Definition JSON_parse (r : parse_result) : M JValue :=
  match r with SyntaxError => throw | Parsed v => mret v end.

(** The receiver of [.startsWith(..)] and [.replace(..)]: a string has
    these methods, on any other JSON value the call is a TypeError. *)
Definition string_receiver (v : JValue) : M string :=
  match v with JStr s => mret s | _ => throw end.


Definition IPFS_GATEWAY : string := "https://ipfs.io/ipfs/".

(** The numeric literals of the handler. *)
Definition lit_185 : num := num_of_Z 185.
Definition lit_85 : num := num_of_Z 85.
Definition lit_100 : num := num_of_Z 100.
(** [0.000001]: the binary64 nearest to 10^-6, which the correctly
    rounded quotient 1 / 10^6 is. *)
Definition lit_0_000001 : num := num_div (num_of_Z 1) (num_of_Z 1000000).

Section FeedHandler.
Context `{!Builtins}.

(** [message.marketCapSol ? message.marketCapSol * 185 : 0] *)
Definition feed_marketCap (marketCapSol : JValue) : option num :=
  if truthy marketCapSol
  then n ← ToNumber marketCapSol; Some (num_mul n lit_185)
  else Some num_zero.

(** [message.vSolInBondingCurve ? (message.vSolInBondingCurve / 85) * 100 : 0] *)
Definition feed_progress (vSol : JValue) : option num :=
  if truthy vSol
  then n ← ToNumber vSol; Some (num_mul (num_div n lit_85) lit_100)
  else Some num_zero.

(** The log line
    [`.. ${token.symbol} (${token.address.slice(0, 8)}...)`]: the holes
    are evaluated and converted to strings from left to right. Strings
    and arrays have [slice], on any other value the call is a TypeError;
    a string slices to a string, an array to the array of its first 8
    elements, which [join] then converts. *)
Definition log_line (token : Token) : M unit :=
  step (ToString (symbol token));;
  match address token with
  | JStr _ => mret tt
  | JArr r l => step (ToString (JArr r (take 8 l)));; mret tt
  | _ => throw
  end.

(** [ws.on('message', (data) => { .. })] of [src/index.ts]. [data] is
    what [JSON.parse(data.toString())] does on the frame, [iso] the
    value of [new Date().toISOString()] and [now] that of [Date.now()]. *)
Definition on_message (iso : string) (now : Z) (data : parse_result) : M unit :=
  try_catch tt (
    message ← JSON_parse data;
    txType ← step (Get message "txType");
    if strict_eq txType (JStr "create") then
      mint ← step (Get message "mint");
      if truthy mint then
        uri ← step (Get message "uri");
        logo ← (if truthy uri then
                  s ← string_receiver uri;
                  if startsWith s "ipfs://" then
                    mret (JStr (IPFS_GATEWAY ++ replace s "ipfs://" ""))
                  else if startsWith s "http" then
                    mret uri
                  else
                    mret (JStr (IPFS_GATEWAY ++ s))
                else mret JUndefined);
        msymbol ← step (Get message "symbol");
        mname ← step (Get message "name");
        marketCapSol ← step (Get message "marketCapSol");
        cap ← step (feed_marketCap marketCapSol);
        vSol ← step (Get message "vSolInBondingCurve");
        progress ← step (feed_progress vSol);
        let token := {|
          address := mint;
          symbol := js_or msymbol (JStr "UNKNOWN");
          name := js_or mname (JStr "Unknown Token");
          logo := logo;
          price := lit_0_000001;
          marketCap := cap;
          bondingProgress := Some progress;
          createdAt := JStr iso;
          fetchedAt := now
        |} in
        update (addToken token);;
        log_line token
      else mret tt
    else mret tt).
End FeedHandler.

(* ================================================================= *)
(** ** The metadata image lookup (second revision of [index.ts]) *)

(** What [await fetch(url)] followed by [await response.json()] does:
    the request fails or times out, or a response arrives with its [ok]
    flag and a body. *)
Inductive fetch_result :=
| NetworkError
| Response (ok : bool) (body : parse_result).

(** [fetchImageFromMetadata]: the image locator, or [undefined]. Every
    exception is caught inside the function. *)
Definition fetchImageFromMetadata (r : fetch_result) : JValue :=
  default JUndefined
    match r with
    | NetworkError => None
    | Response ok body =>
        if negb ok then Some JUndefined
        else
          metadata ← match body with SyntaxError => None | Parsed v => Some v end;
          image ← Get metadata "image";
          if truthy image then
            s ← match image with JStr s => Some s | _ => None end;
            if startsWith s "ipfs://"
            then Some (JStr (IPFS_GATEWAY ++ replace s "ipfs://" ""))
            else Some image
          else Some JUndefined
    end.

Definition set_logo (l : JValue) (t : Token) : Token :=
  {| address := address t; symbol := symbol t; name := name t; logo := l;
     price := price t; marketCap := marketCap t;
     bondingProgress := bondingProgress t;
     createdAt := createdAt t; fetchedAt := fetchedAt t |}.

(** The body of the [.then] callback once [imageUrl] is known to be set:
    [const idx = tokens.findIndex(..); if (idx !== -1) tokens[idx].logo = imageUrl]. *)
Definition patchImage (id imageUrl : JValue) (tokens : list Token) : list Token :=
  match list_find (λ t, strict_eq (address t) id) tokens with
  | Some (idx, _) => alter (set_logo imageUrl) idx tokens
  | None => tokens
  end.

(** [fetchImageFromMetadata(metadataUrl).then((imageUrl) => { .. })],
    called for the token the message handler built. *)
Definition on_image (token : Token) (imageUrl : JValue) : M unit :=
  if truthy imageUrl then update (patchImage (address token) imageUrl)
  else mret tt.

Section FeedHandlerWithLookup.
Context `{!Builtins}.

(** [ws.on('message', async (data) => { .. })] of the second revision.
    The value is the lookup the handler starts without waiting for it:
    the metadata URL and the token [on_image] will be called with. *)
Definition on_message_lookup (iso : string) (now : Z) (data : parse_result)
  : M (option (string * Token)) :=
  try_catch None (
    message ← JSON_parse data;
    txType ← step (Get message "txType");
    if strict_eq txType (JStr "create") then
      mint ← step (Get message "mint");
      if truthy mint then
        uri ← step (Get message "uri");
        metadataUrl ← (if truthy uri then
                  s ← string_receiver uri;
                  if startsWith s "ipfs://" then
                    mret (JStr (IPFS_GATEWAY ++ replace s "ipfs://" ""))
                  else if startsWith s "http" then
                    mret uri
                  else
                    mret (JStr (IPFS_GATEWAY ++ s))
                else mret JUndefined);
        smint ← step (ToString mint);
        msymbol ← step (Get message "symbol");
        mname ← step (Get message "name");
        marketCapSol ← step (Get message "marketCapSol");
        cap ← step (feed_marketCap marketCapSol);
        vSol ← step (Get message "vSolInBondingCurve");
        progress ← step (feed_progress vSol);
        let token := {|
          address := mint;
          symbol := js_or msymbol (JStr "UNKNOWN");
          name := js_or mname (JStr "Unknown Token");
          logo := JStr ("https://pump.fun/coin/" ++ smint ++ "/image");
          price := lit_0_000001;
          marketCap := cap;
          bondingProgress := Some progress;
          createdAt := JStr iso;
          fetchedAt := now
        |} in
        update (addToken token);;
        log_line token;;
        match metadataUrl with
        | JStr url => if truthy metadataUrl then mret (Some (url, token)) else mret None
        | _ => mret None
        end
      else mret None
    else mret None).
End FeedHandlerWithLookup.

(* ================================================================= *)
(** ** The connection to the feed *)

Inductive ReadyState := CONNECTING | OPEN | CLOSING | CLOSED.

(** The module-level [ws] ([None] is [null], otherwise the socket's
    [readyState]) and [reconnectAttempts]. *)
Record Connector := {
  ws : option ReadyState;
  reconnectAttempts : Z
}.

Definition MAX_RECONNECT_ATTEMPTS : Z := 10.
Definition RECONNECT_DELAY : Z := 5000.

(** What a handler asks of the outside: a frame sent on the socket, or
    [setTimeout(connectToPumpPortal, delay)]. *)
Inductive Effect :=
| Send (method : string)
| SetTimeout (delay : Z).

(** [connectToPumpPortal]: [ws = new WebSocket(..)]. *)
Definition connectToPumpPortal (c : Connector) : Connector :=
  {| ws := Some CONNECTING; reconnectAttempts := reconnectAttempts c |}.

(** [ws.on('open', ..)]; the socket is in state [OPEN] when the library
    emits the event. *)
Definition on_open (c : Connector) : Connector * list Effect :=
  ({| ws := match ws c with Some _ => Some OPEN | None => None end;
      reconnectAttempts := 0 |},
   match ws c with Some _ => [Send "subscribeNewToken"] | None => [] end).

(** [ws.on('close', ..)] *)
Definition on_close (c : Connector) : Connector * list Effect :=
  if reconnectAttempts c <? MAX_RECONNECT_ATTEMPTS
  then ({| ws := None; reconnectAttempts := reconnectAttempts c + 1 |},
        [SetTimeout RECONNECT_DELAY])
  else ({| ws := None; reconnectAttempts := reconnectAttempts c |}, []).

(** [ws.on('error', ..)] only logs. *)
Definition on_error (c : Connector) : Connector * list Effect := (c, []).

(** [n] close events in a row, no [open] between them: after each close
    the timer it set, if any, fires and calls [connectToPumpPortal], and
    the socket made there closes in its turn. The value is the final
    state and everything scheduled on the way. *)
Fixpoint closes (n : nat) (c : Connector) : Connector * list Effect :=
  match n with
  | O => (c, [])
  | S n' =>
      let '(c1, fx) := on_close c in
      let c2 := match fx with [] => c1 | _ :: _ => connectToPumpPortal c1 end in
      let '(c3, fx') := closes n' c2 in
      (c3, (fx ++ fx')%list)
  end.

(** The connector once its attempts are used up. *)
Definition exhausted : Connector :=
  {| ws := None; reconnectAttempts := MAX_RECONNECT_ATTEMPTS |}.

(** [ws?.readyState === WebSocket.OPEN] *)
Definition wsConnected (c : Connector) : bool :=
  match ws c with Some OPEN => true | _ => false end.

(* ================================================================= *)
(** ** The poller *)

(** [Array.isArray(v)] *)
Definition isArray (v : JValue) : bool :=
  match v with JArr _ _ => true | _ => false end.

(** The elements [v.slice(0, n)] iterates over, [v] being an array. *)
Definition elements (v : JValue) : list JValue :=
  match v with JArr _ l => l | _ => [] end.

(** [for (const item of items) { body }], the body being told the rank
    of its iteration. *)
Fixpoint for_of {A} (body : nat -> A -> M unit) (i : nat) (items : list A) : M unit :=
  match items with
  | [] => mret tt
  | item :: rest => body i item;; for_of body (S i) rest
  end.

(** [item.priceUsd || item.price || '0'] and
    [item.marketCapUsd || item.marketCap || '0'], the values the poller
    hands to [String]. *)
Definition price_source (fs : list (string * JValue)) : JValue :=
  js_or (js_or (assoc "priceUsd" fs) (assoc "price" fs)) (JStr "0").

Definition cap_source (fs : list (string * JValue)) : JValue :=
  js_or (js_or (assoc "marketCapUsd" fs) (assoc "marketCap" fs)) (JStr "0").

Section Poller.
Context `{!Builtins}.

(** The token [fetchFromMoralis] builds from one item; [iso] and [now]
    are the clock readings of that iteration. *)
Definition moralis_token (iso : string) (now : Z) (item : JValue) : M Token :=
  tokenAddress ← step (Get item "tokenAddress");
  address_ ← step (Get item "address");
  symbol_ ← step (Get item "symbol");
  name_ ← step (Get item "name");
  logo_ ← step (Get item "logo");
  image ← step (Get item "image");
  priceUsd ← step (Get item "priceUsd");
  price_ ← step (Get item "price");
  sprice ← step (ToString (js_or (js_or priceUsd price_) (JStr "0")));
  marketCapUsd ← step (Get item "marketCapUsd");
  marketCap_ ← step (Get item "marketCap");
  scap ← step (ToString (js_or (js_or marketCapUsd marketCap_) (JStr "0")));
  createdAt_ ← step (Get item "createdAt");
  mret {|
    address := js_or tokenAddress address_;
    symbol := js_or symbol_ (JStr "UNKNOWN");
    name := js_or name_ (JStr "Unknown");
    logo := js_or logo_ image;
    price := parseFloat sprice;
    marketCap := parseFloat scap;
    bondingProgress := None;
    createdAt := js_or createdAt_ (JStr iso);
    fetchedAt := now
  |}.

(** [fetchFromMoralis], [r] being what the request and the decoding of
    its body do and [clock i] the readings of [new Date().toISOString()]
    and [Date.now()] in iteration [i]. *)
Definition fetchFromMoralis (clock : nat -> string * Z) (r : fetch_result) : M unit :=
  try_catch tt
    match r with
    | NetworkError => throw
    | Response ok body =>
        if negb ok then mret tt
        else
          data ← JSON_parse body;
          result ← step (Get data "result");
          if truthy result && isArray result then
            for_of (λ i item,
                      token ← moralis_token (clock i).1 (clock i).2 item;
                      update (addToken token))
                   0%nat (take 30 (elements result))
          else mret tt
    end.
End Poller.

(* ================================================================= *)
(** ** The read API *)

(** The white space [parseInt] skips (StrWhiteSpaceChar), by the length
    of its UTF-8 encoding. One byte: U+0009 to U+000D and U+0020; the
    byte A0, which is U+00A0 where a string is read as Latin-1, is
    skipped too. *)
Definition is_space (c : ascii) : bool :=
  let n := nat_of_ascii c in
  ((9 <=? n) && (n <=? 13) || (n =? 32) || (n =? 160))%nat.

(** Two bytes: U+00A0. *)
Definition is_space2 (c1 c2 : ascii) : bool :=
  ((nat_of_ascii c1 =? 194) && (nat_of_ascii c2 =? 160))%nat.

(** Three bytes: U+1680, U+2000 to U+200A, U+2028, U+2029, U+202F,
    U+205F, U+3000 and U+FEFF. *)
Definition is_space3 (c1 c2 c3 : ascii) : bool :=
  let a := nat_of_ascii c1 in
  let b := nat_of_ascii c2 in
  let c := nat_of_ascii c3 in
  ((a =? 225) && (b =? 154) && (c =? 128)
   || (a =? 226) && (b =? 128)
      && ((128 <=? c) && (c <=? 138) || (c =? 168) || (c =? 169) || (c =? 175))
   || (a =? 226) && (b =? 129) && (c =? 159)
   || (a =? 227) && (b =? 128) && (c =? 128)
   || (a =? 239) && (b =? 187) && (c =? 191))%nat.

Fixpoint trim_start (s : string) : string :=
  match s with
  | String c1 s1 =>
      if is_space c1 then trim_start s1
      else match s1 with
           | String c2 s2 =>
               if is_space2 c1 c2 then trim_start s2
               else match s2 with
                    | String c3 s3 =>
                        if is_space3 c1 c2 c3 then trim_start s3 else s
                    | EmptyString => s
                    end
           | EmptyString => s
           end
  | EmptyString => s
  end.

(** The value of a character as a digit in [radix], if it is one. *)
Definition digit_of (radix : Z) (c : ascii) : option Z :=
  let n := Z.of_nat (nat_of_ascii c) in
  let d := if (48 <=? n) && (n <=? 57) then Some (n - 48)
           else if (97 <=? n) && (n <=? 122) then Some (n - 87)
           else if (65 <=? n) && (n <=? 90) then Some (n - 55)
           else None in
  match d with
  | Some v => if v <? radix then Some v else None
  | None => None
  end.

(** The longest prefix of digits, read in [radix]; [acc] is [None] until
    a digit has been read. *)
Fixpoint digits (radix : Z) (s : string) (acc : option Z) : option Z :=
  match s with
  | String c s' =>
      match digit_of radix c with
      | Some d => digits radix s' (Some (default 0 acc * radix + d))
      | None => acc
      end
  | EmptyString => acc
  end.

(** [parseInt(s)], no radix given: [None] is [NaN]. The value is the
    integer the digits denote; the code only tests it for zero and takes
    its minimum with 100, which rounding to binary64 leaves unchanged. *)
Definition parseInt (s : string) : option Z :=
  let s := trim_start s in
  let '(neg, s) := match s with
                   | String "-" s' => (true, s')
                   | String "+" s' => (false, s')
                   | _ => (false, s)
                   end in
  let '(radix, s) := match s with
                     | String "0" (String "x" s') => (16, s')
                     | String "0" (String "X" s') => (16, s')
                     | _ => (10, s)
                     end in
  match digits radix s None with
  | Some v => Some (if neg then - v else v)
  | None => None
  end.

(** [a.slice(0, end)], [end] an integer. *)
Definition slice0 {A} (a : list A) (end_ : Z) : list A :=
  let len := Z.of_nat (length a) in
  let final := if end_ <? 0 then Z.max (len + end_) 0 else Z.min end_ len in
  take (Z.to_nat final) a.

Record TokensResponse := {
  resp_tokens : list Token;
  resp_count : nat;
  resp_wsConnected : bool
}.

Record HealthResponse := {
  health_wsConnected : bool;
  health_tokenCount : nat
}.

Section Api.
Context `{!Builtins}.

(** [Math.min(parseInt(req.query.limit as string) || 50, 100)]; the
    query value is a string, an array or an object of strings, or
    [undefined], and [parseInt] converts it to a string first: [None] is
    the TypeError of that conversion. *)
Definition query_limit (limit : JValue) : option Z :=
  s ← ToString limit;
  Some (Z.min (match parseInt s with
               | Some k => if k =? 0 then 50 else k
               | None => 50
               end) 100).

(** [app.get('/api/pulse/tokens', ..)] *)
Definition get_pulse_tokens (now : Z) (limit : JValue) (c : Connector)
  : M TokensResponse :=
  update (cleanupOldTokens now);;
  limit ← step (query_limit limit);
  tokens ← get_tokens_var;
  mret {| resp_tokens := slice0 tokens limit;
          resp_count := length tokens;
          resp_wsConnected := wsConnected c |}.

(** [app.get('/health', ..)] *)
Definition get_health (c : Connector) : M HealthResponse :=
  tokens ← get_tokens_var;
  mret {| health_wsConnected := wsConnected c;
          health_tokenCount := length tokens |}.
End Api.

(** Conversions for the runs in which no string is converted to a number
    and no number to a string. *)
Definition no_conversion : Builtins :=
  {| StringToNumber := λ _, NaN;
     NumberToString := λ _, "NaN";
     parseFloat := λ _, NaN |}.

(* ================================================================= *)
(** ** Histories of upserts *)

(** The store after the upserts [es], applied in order to [tokens]. *)
Definition upserts (es : list Token) (tokens : list Token) : list Token :=
  foldl (λ ts e, addToken e ts) tokens es.

(** An upsert is superseded when a later one carries the same id. What
    is left of a history, oldest first, is the latest upsert of each id. *)
Fixpoint latest_per_id (es : list Token) : list Token :=
  match es with
  | [] => []
  | e :: later =>
      if existsb (λ u, strict_eq (address u) (address e)) later
      then latest_per_id later
      else e :: latest_per_id later
  end.

(** The ids a history upserted, the most recently upserted first. *)
Definition most_recent (es : list Token) : list Token :=
  reverse (latest_per_id es).

(** No two entries of a list carry the same id. *)
Fixpoint distinct_ids (l : list Token) : Prop :=
  match l with
  | [] => True
  | x :: r => Forall (λ y, ¬ strict_eq (address x) (address y)) r ∧ distinct_ids r
  end.

(** The binary64 value of the JSON number [42.5]. *)
Definition num_42_5 : num := binary_normalize prec emax 85 (-1) false.

(* ================================================================= *)
(** ** Sample data *)

(** An entry fetched at time 0. *)
Definition sample_token : Token :=
  {| address := JStr "ABC"; symbol := JStr "FOO"; name := JStr "Foo";
     logo := JUndefined; price := lit_0_000001; marketCap := num_zero;
     bondingProgress := None; createdAt := JStr "1970-01-01T00:00:00.000Z";
     fetchedAt := 0 |}.

Definition sample_connector : Connector :=
  {| ws := Some OPEN; reconnectAttempts := 0 |}.

(** The message [{txType:"create", mint:"ABC", symbol:"FOO",
    marketCapSol:10, vSolInBondingCurve:42.5}]. *)
Definition create_message : JValue :=
  JObj 0 [("txType", JStr "create"); ("mint", JStr "ABC"); ("symbol", JStr "FOO");
          ("marketCapSol", JNum (num_of_Z 10));
          ("vSolInBondingCurve", JNum num_42_5)].

(** A create message with the given [uri]. *)
Definition uri_message (uri : string) : JValue :=
  JObj 0 [("txType", JStr "create"); ("mint", JStr "ABC"); ("uri", JStr uri)].

(** A create message that carries no [mint]. *)
Definition mintless_message : JValue :=
  JObj 0 [("txType", JStr "create"); ("symbol", JStr "FOO")].

(** The batch [{result: [{tokenAddress:"ABC", logo:"L"}]}] of the poller. *)
Definition replacing_batch : JValue :=
  JObj 1 [("result", JArr 2 [JObj 3 [("tokenAddress", JStr "ABC"); ("logo", JStr "L")]])].

(** A batch whose two items carry no address at all. *)
Definition idless_batch : JValue :=
  JObj 1 [("result", JArr 2 [JObj 3 [("symbol", JStr "X")];
                              JObj 4 [("symbol", JStr "Y")]])].

(** Two entries differ at most in their [logo]. *)
Definition same_but_logo (t u : Token) : Prop :=
  address u = address t ∧ symbol u = symbol t ∧ name u = name t
  ∧ price u = price t ∧ marketCap u = marketCap t
  ∧ bondingProgress u = bondingProgress t
  ∧ createdAt u = createdAt t ∧ fetchedAt u = fetchedAt t.

(* ================================================================= *)
(** ** Runs of the service *)

(** What the event loop runs against the store: the two revisions of the
    feed handler, the answer of a metadata lookup reaching its [.then]
    callback, a poll, the two routes, and the sweep that
    [setInterval(cleanupOldTokens, 60000)] fires. *)
Inductive Activity :=
| FeedMessage (iso : string) (now : Z) (data : parse_result)
| FeedMessageLookup (iso : string) (now : Z) (data : parse_result)
| ImageResolved (token : Token) (r : fetch_result)
| Poll (clock : nat -> string * Z) (r : fetch_result)
| PulseQuery (now : Z) (limit : JValue) (c : Connector)
| HealthQuery (c : Connector)
| PeriodicSweep (now : Z).

Section Runs.
Context `{!Builtins}.

Definition perform (a : Activity) (tokens : list Token) : list Token :=
  match a with
  | FeedMessage iso now data => run (on_message iso now data) tokens
  | FeedMessageLookup iso now data => run (on_message_lookup iso now data) tokens
  | ImageResolved token r => run (on_image token (fetchImageFromMetadata r)) tokens
  | Poll clock r => run (fetchFromMoralis clock r) tokens
  | PulseQuery now limit c => run (get_pulse_tokens now limit c) tokens
  | HealthQuery c => run (get_health c) tokens
  | PeriodicSweep now => cleanupOldTokens now tokens
  end.

(** The store after the activities [acts], the server having started
    with [tokens = []]. *)
Definition service (acts : list Activity) : list Token :=
  foldl (λ ts a, perform a ts) [] acts.
End Runs.

(** The store is within its capacity and holds each id once. *)
Definition store_ok (tokens : list Token) : Prop :=
  (length tokens <= MAX_TOKENS)%nat ∧ distinct_ids tokens.

(** The events of the socket and of the reconnect timer. *)
Inductive ConnEvent := Opened | Closed | Errored | TimerFired.

Definition conn_step (ev : ConnEvent) (c : Connector) : Connector * list Effect :=
  match ev with
  | Opened => on_open c
  | Closed => on_close c
  | Errored => on_error c
  | TimerFired => (connectToPumpPortal c, [])
  end.

(** The connector after the events [evs] and what they asked for. *)
Fixpoint conn_run (evs : list ConnEvent) (c : Connector) : Connector * list Effect :=
  match evs with
  | [] => (c, [])
  | ev :: evs' =>
      let '(c1, fx) := conn_step ev c in
      let '(c2, fx') := conn_run evs' c1 in
      (c2, (fx ++ fx')%list)
  end.

(** The connector when the server starts: [ws = null], no attempt made. *)
Definition initial_connector : Connector :=
  {| ws := None; reconnectAttempts := 0 |}.

(** An entry is recent enough to survive a sweep at [now]. *)
Definition fresh (now : Z) (t : Token) : Prop := now - MAX_AGE_MS < fetchedAt t.

(** A value that is a JSON object. *)
Definition is_object (v : JValue) : Prop :=
  match v with JObj _ _ => True | _ => False end.

(** The locator both revisions of the feed handler derive from
    [message.uri], once the value is known to be falsy or a string. *)
Definition uri_locator (uri : JValue) : JValue :=
  match uri with
  | JStr s =>
      if truthy (JStr s) then
        if startsWith s "ipfs://"
        then JStr (IPFS_GATEWAY ++ replace s "ipfs://" "")
        else if startsWith s "http" then JStr s
             else JStr (IPFS_GATEWAY ++ s)
      else JUndefined
  | _ => JUndefined
  end.

(** The entry the feed handler builds from the fields [fs] of a message,
    [l] being its [logo]; none when a numeric field cannot be converted. *)
Definition feed_entry `{!Builtins} (iso : string) (now : Z)
    (fs : list (string * JValue)) (l : JValue) : option Token :=
  cap ← feed_marketCap (assoc "marketCapSol" fs);
  progress ← feed_progress (assoc "vSolInBondingCurve" fs);
  Some {| address := assoc "mint" fs;
          symbol := js_or (assoc "symbol" fs) (JStr "UNKNOWN");
          name := js_or (assoc "name" fs) (JStr "Unknown Token");
          logo := l;
          price := lit_0_000001;
          marketCap := cap;
          bondingProgress := Some progress;
          createdAt := JStr iso;
          fetchedAt := now |}.

(** The logo the second revision gives every entry of the feed; none
    when [mint] cannot be converted to a string. *)
Definition pump_logo `{!Builtins} (mint : JValue) : option JValue :=
  smint ← ToString mint;
  Some (JStr ("https://pump.fun/coin/" ++ smint ++ "/image")).

(** The log line of the feed handler completes. *)
Definition logs `{!Builtins} (token : Token) : bool :=
  match ToString (symbol token) with
  | Some _ =>
      match address token with
      | JStr _ => true
      | JArr r l => bool_decide (is_Some (ToString (JArr r (take 8 l))))
      | _ => false
      end
  | None => false
  end.

(** The body of the loop of [fetchFromMoralis]. *)
Definition poll_body `{!Builtins} (clock : nat -> string * Z) : nat -> JValue -> M unit :=
  λ i item, token ← moralis_token (clock i).1 (clock i).2 item; update (addToken token).

(** The entry the poller builds from the fields [fs] of an item; none
    when a price cannot be converted to a string. *)
Definition poll_entry `{!Builtins} (iso : string) (now : Z)
    (fs : list (string * JValue)) : option Token :=
  sprice ← ToString (price_source fs);
  scap ← ToString (cap_source fs);
  Some {| address := js_or (assoc "tokenAddress" fs) (assoc "address" fs);
          symbol := js_or (assoc "symbol" fs) (JStr "UNKNOWN");
          name := js_or (assoc "name" fs) (JStr "Unknown");
          logo := js_or (assoc "logo" fs) (assoc "image" fs);
          price := parseFloat sprice;
          marketCap := parseFloat scap;
          bondingProgress := None;
          createdAt := js_or (assoc "createdAt" fs) (JStr iso);
          fetchedAt := now |}.

(** The fields an item shows to the poller: those of an object, none for
    a number, a string, a boolean or an array. *)
Definition item_fields (item : JValue) : list (string * JValue) :=
  match item with JObj _ fs => fs | _ => [] end.

(** The entries a batch gives, item after item, up to the first item
    that throws: one that is [null], or one whose price cannot be
    converted; [i] is the rank of the first item. *)
Fixpoint poll_entries `{!Builtins} (clock : nat -> string * Z) (i : nat)
    (items : list JValue) : list Token :=
  match items with
  | [] => []
  | item :: rest =>
      match item with
      | JUndefined | JNull => []
      | _ => match poll_entry (clock i).1 (clock i).2 (item_fields item) with
             | Some t => t :: poll_entries clock (S i) rest
             | None => []
             end
      end
  end.

(** The retry counter is within its budget. *)
Definition conn_ok (c : Connector) : Prop :=
  0 <= reconnectAttempts c <= MAX_RECONNECT_ATTEMPTS.

(** The two things the handlers of the socket ask for. *)
Definition effect_ok (fx : Effect) : Prop :=
  fx = Send "subscribeNewToken" ∨ fx = SetTimeout RECONNECT_DELAY.

(* ================================================================= *)
(** * Properties *)

Local Open Scope list_scope.

(** ** Numbers and [===] *)

Lemma num_eqb_spec (x y : num) :
  num_eqb x y = true <->
  (is_zero x = true /\ is_zero y = true) \/ (x = y /\ is_nan x = false).
Proof.
  unfold num_eqb, SFeqb.
  destruct x as [sx|sx| |sx mx ex], y as [sy|sy| |sy my ey]; simpl;
    try (destruct sx); try (destruct sy); simpl;
    try (split; [discriminate | intros [[? ?]|[? ?]]; congruence]);
    try (split; [auto | reflexivity]).
  all: destruct (Z.compare_spec ex ey) as [Hc|Hc|Hc].
  all: try (split; [discriminate | intros [[? ?]|[E ?]]; [discriminate | injection E; lia]]).
  all: subst ey; change (PosDef.Pos.compare_cont Eq mx my) with (Pos.compare mx my);
    destruct (Pos.compare_spec mx my) as [Hm|Hm|Hm]; simpl.
  all: try (split; [discriminate | intros [[? ?]|[E ?]]; [discriminate | injection E; lia]]).
  all: subst; split; auto.
Qed.

Lemma num_eqb_sym (x y : num) : num_eqb x y = true -> num_eqb y x = true.
Proof.
  rewrite !num_eqb_spec. intros [[? ?]|[-> ?]]; [left | right]; auto.
Qed.

Lemma num_eqb_trans (x y z : num) :
  num_eqb x y = true -> num_eqb y z = true -> num_eqb x z = true.
Proof.
  rewrite !num_eqb_spec.
  intros [[Hx Hy]|[-> Hx]] [[Hy' Hz]|[<- Hy']]; auto.
Qed.

Lemma num_eqb_refl (x : num) : is_nan x = false -> num_eqb x x = true.
Proof. intros H. apply num_eqb_spec. right; auto. Qed.

(** Rounding a non-negative mantissa never gives [NaN]. *)
Lemma shr_1_nonneg (mrs : shr_record) : 0 <= shr_m mrs → 0 <= shr_m (shr_1 mrs).
Proof. destruct mrs as [[|[p|p|]|[p|p|]] sr ss]; simpl; lia. Qed.

Lemma iter_shr_1_nonneg (p : positive) (mrs : shr_record) :
  0 <= shr_m mrs → 0 <= shr_m (SpecFloat.iter_pos shr_1 p mrs).
Proof.
  revert mrs. induction p as [p IH|p IH|]; simpl; intros mrs Hm.
  - apply IH, IH, shr_1_nonneg, Hm.
  - apply IH, IH, Hm.
  - apply shr_1_nonneg, Hm.
Qed.

Lemma shr_fexp_nonneg (p em m e : Z) (l : location) :
  0 <= m → 0 <= shr_m (shr_fexp p em m e l).1.
Proof.
  intros Hm. unfold shr_fexp, shr.
  assert (H0 : 0 <= shr_m (shr_record_of_loc m l)) by (destruct l as [|[]]; exact Hm).
  destruct (fexp p em (Zdigits2 m + e) - e); simpl; auto using iter_shr_1_nonneg.
Qed.

Lemma round_nearest_even_nonneg (m : Z) (l : location) :
  0 <= m → 0 <= round_nearest_even m l.
Proof.
  intros Hm. destruct l as [|[]]; simpl; try lia.
  destruct (Z.even m); lia.
Qed.

Lemma binary_round_aux_not_nan (p em : Z) (sx : bool) (mx ex : Z) (lx : location) :
  0 <= mx → is_nan (binary_round_aux p em sx mx ex lx) = false.
Proof.
  intros Hm. unfold binary_round_aux.
  pose proof (shr_fexp_nonneg p em mx ex lx Hm) as H1.
  destruct (shr_fexp p em mx ex lx) as [mrs1 e1]. simpl in H1.
  pose proof (shr_fexp_nonneg p em _ e1 loc_Exact
                (round_nearest_even_nonneg _ (loc_of_shr_record mrs1) H1)) as H2.
  destruct (shr_fexp p em _ e1 loc_Exact) as [mrs2 e2]. simpl in H2.
  destruct (shr_m mrs2) as [|q|q]; [done| |lia].
  by destruct (e2 <=? em - p).
Qed.

(** The product and the quotient of a number by a finite non-zero
    number are numbers. *)
Lemma num_mul_not_nan (x : num) (s : bool) (m : positive) (e : Z) :
  is_nan x = false → is_nan (num_mul x (S754_finite s m e)) = false.
Proof.
  destruct x as [sx|sx| |sx mx ex]; try done. intros _.
  apply binary_round_aux_not_nan. lia.
Qed.

Lemma num_div_not_nan (x : num) (s : bool) (m : positive) (e : Z) :
  is_nan x = false → is_nan (num_div x (S754_finite s m e)) = false.
Proof.
  destruct x as [sx|sx| |sx mx ex]; try done. intros _.
  unfold num_div, SFdiv.
  destruct (SFdiv_core_binary prec emax (Z.pos mx) ex (Z.pos m) e) as [[q e'] l] eqn:Hq.
  apply binary_round_aux_not_nan.
  unfold SFdiv_core_binary in Hq.
  set (sh := _ - _ - _) in Hq.
  set (m' := match sh with Z.pos _ => _ | Z0 => _ | Z.neg _ => _ end) in Hq.
  assert (Hm' : 0 <= m').
  { subst m'. destruct sh; try lia. apply Z.shiftl_nonneg. lia. }
  pose proof (Z.div_pos m' (Z.pos m) Hm' ltac:(lia)) as Hdiv.
  unfold Z.div in Hdiv.
  destruct (Z.div_eucl m' (Z.pos m)) as [q' r']. simpl in Hdiv.
  by injection Hq as <- _ _.
Qed.

Lemma strict_eq_sym (a b : JValue) : strict_eq a b -> strict_eq b a.
Proof.
  rewrite !Is_true_true.
  destruct a, b; simpl; try discriminate; auto.
  - intros H. rewrite (proj2 (Bool.eqb_true_iff _ _)); auto.
    symmetry. now apply Bool.eqb_true_iff.
  - apply num_eqb_sym.
  - rewrite !String.eqb_eq. auto.
  - rewrite !Nat.eqb_eq. auto.
  - rewrite !Nat.eqb_eq. auto.
Qed.

Lemma strict_eq_trans (a b c : JValue) :
  strict_eq a b -> strict_eq b c -> strict_eq a c.
Proof.
  rewrite !Is_true_true.
  destruct a, b; simpl; try discriminate; destruct c; simpl; try discriminate; auto.
  - rewrite !Bool.eqb_true_iff. congruence.
  - apply num_eqb_trans.
  - rewrite !String.eqb_eq. congruence.
  - rewrite !Nat.eqb_eq. congruence.
  - rewrite !Nat.eqb_eq. congruence.
Qed.

Lemma strict_eq_str (v : JValue) (s : string) :
  strict_eq v (JStr s) = true <-> v = JStr s.
Proof.
  destruct v; simpl; split; try discriminate; try congruence.
  - rewrite String.eqb_eq. congruence.
  - intros [= ->]. apply String.eqb_refl.
Qed.

(** ** The store: [addToken] *)

Section AddToken.
Implicit Types (e t : Token) (tokens l : list Token).

(** Entries other than those stored under the id of [e]. *)
Local Abbreviation others e := (filter (λ t, ¬ strict_eq (address t) (address e))).

Lemma addToken_take e tokens :
  addToken e tokens = take MAX_TOKENS (e :: others e tokens).
Proof.
  unfold addToken.
  destruct (Nat.ltb_spec MAX_TOKENS (length (e :: others e tokens))); [done|].
  symmetry. apply take_ge. lia.
Qed.

Lemma addToken_cons e tokens :
  addToken e tokens = e :: take 99 (others e tokens).
Proof. by rewrite addToken_take. Qed.

Lemma addToken_length e tokens : (length (addToken e tokens) ≤ MAX_TOKENS)%nat.
Proof. rewrite addToken_take, length_take. lia. Qed.

Lemma others_Forall e tokens :
  Forall (λ t, ¬ strict_eq (address t) (address e)) (others e tokens).
Proof. apply Forall_forall. intros t Ht. by apply list_elem_of_filter in Ht as [? _]. Qed.

Lemma filter_none (P : Token → Prop) `{!∀ x, Decision (P x)} l :
  Forall (λ t, ¬ P t) l → filter P l = [].
Proof.
  induction 1 as [|x l Hx _ IH]; [done|].
  by rewrite filter_cons_False.
Qed.

Lemma filter_all (P : Token → Prop) `{!∀ x, Decision (P x)} l :
  Forall P l → filter P l = l.
Proof.
  induction 1 as [|x l Hx _ IH]; [done|].
  rewrite filter_cons_True by done. by rewrite IH.
Qed.

(** Two upserts under one id leave the second one only. *)
Lemma addToken_same_id e0 e tokens :
  strict_eq (address e0) (address e) →
  filter (λ t, strict_eq (address t) (address e)) (addToken e (addToken e0 tokens)) = [e].
Proof.
  intros Hid. rewrite (addToken_cons e).
  assert (Hrefl : strict_eq (address e) (address e)).
  { eapply strict_eq_trans; [apply strict_eq_sym|]; eassumption. }
  rewrite filter_cons_True by done. f_equal.
  apply filter_none. apply Forall_take.
  eapply Forall_impl; [apply others_Forall|]. auto.
Qed.
End AddToken.

(** C1. [addToken e] always completes; the store it leaves is [e]
    followed by the old entries stored under other ids, in their old
    order (the first [MAX_TOKENS - 1] of them). Upserting [e] after an
    entry [e0] of the same id leaves [e] at the front and exactly one
    entry under that id. *)
Theorem addToken_replaces_and_fronts (e : Token) (tokens : list Token) :
  (∃ rest,
      update (addToken e) tokens = (Some tt, e :: rest)
      ∧ rest = take (MAX_TOKENS - 1)
                 (filter (λ t, ¬ strict_eq (address t) (address e)) tokens)
      ∧ rest `sublist_of` tokens
      ∧ Forall (λ t, ¬ strict_eq (address t) (address e)) rest)
  ∧ (∀ e0, strict_eq (address e0) (address e) →
       let store := addToken e (addToken e0 tokens) in
       head store = Some e
       ∧ filter (λ t, strict_eq (address t) (address e)) store = [e]).
Proof.
  split.
  - exists (take 99 (filter (λ t, ¬ strict_eq (address t) (address e)) tokens)).
    split; [unfold update; by rewrite addToken_cons|].
    split; [done|]. split.
    + etrans; [apply sublist_take | apply sublist_filter].
    + apply Forall_take, others_Forall.
  - intros e0 Hid store. subst store.
    split; [by rewrite (addToken_cons e) | by apply addToken_same_id].
Qed.

Lemma addToken_replaces_and_fronts_witness :
  let e := set_logo (JStr "new") sample_token in
  let store := addToken e (addToken sample_token []) in
  head store = Some e
  ∧ filter (λ t, strict_eq (address t) (address e)) store = [e].
Proof.
  destruct (addToken_replaces_and_fronts (set_logo (JStr "new") sample_token) [])
    as [_ Htwice].
  exact (Htwice sample_token I).
Defined.

(** ** Histories of upserts and the capacity *)

Section Capacity.
Implicit Types (e t : Token) (es tokens l : list Token).

Local Abbreviation others e := (filter (λ t, ¬ strict_eq (address t) (address e))).

Lemma strict_eq_comm (a b : JValue) : strict_eq a b = strict_eq b a.
Proof.
  destruct (strict_eq a b) eqn:Hab, (strict_eq b a) eqn:Hba; try done.
  - apply Is_true_true, strict_eq_sym, Is_true_true in Hab. congruence.
  - apply Is_true_true, strict_eq_sym, Is_true_true in Hba. congruence.
Qed.

Lemma latest_per_id_snoc es e :
  latest_per_id (es ++ [e]) = others e (latest_per_id es) ++ [e].
Proof.
  induction es as [|x es IH]; [done|].
  simpl latest_per_id. rewrite existsb_app. simpl existsb.
  rewrite orb_false_r, (strict_eq_comm (address e) (address x)).
  destruct (existsb _ es) eqn:Hlater; simpl.
  - by rewrite IH.
  - destruct (strict_eq (address x) (address e)) eqn:Hxe.
    + rewrite filter_cons_False by (rewrite Hxe; auto). by rewrite IH.
    + rewrite filter_cons_True by (rewrite Hxe; auto). simpl. by rewrite IH.
Qed.

Lemma most_recent_snoc es e :
  most_recent (es ++ [e]) = e :: others e (most_recent es).
Proof.
  unfold most_recent.
  by rewrite latest_per_id_snoc, reverse_snoc, filter_reverse.
Qed.

Lemma distinct_ids_filter (P : Token → Prop) `{!∀ x, Decision (P x)} l :
  distinct_ids l → distinct_ids (filter P l).
Proof.
  induction l as [|x l IH]; [done|]. intros [Hx Hl].
  rewrite filter_cons. case_decide; [|by apply IH].
  split; [|by apply IH].
  apply Forall_forall. intros y [_ Hy]%list_elem_of_filter.
  by apply (proj1 (Forall_forall _ _) Hx).
Qed.

Lemma distinct_ids_take n l : distinct_ids l → distinct_ids (take n l).
Proof.
  revert n. induction l as [|x l IH]; intros [|n]; try done.
  intros [Hx Hl]. split; [by apply Forall_take | by apply IH].
Qed.

Lemma most_recent_distinct es : distinct_ids (most_recent es).
Proof.
  induction es as [|e es IH] using rev_ind; [done|].
  rewrite most_recent_snoc. split; [|by apply distinct_ids_filter].
  apply Forall_forall. intros y [Hy _]%list_elem_of_filter.
  by rewrite strict_eq_comm.
Qed.

(** Among entries of distinct ids at most one is stored under a given id. *)
Lemma others_length e l :
  distinct_ids l → (length l ≤ length (others e l) + 1)%nat.
Proof.
  induction l as [|x l IH]; [simpl; lia|]. intros [Hx Hl].
  destruct (strict_eq (address x) (address e)) eqn:Hxe.
  - rewrite filter_cons_False by (rewrite Hxe; auto).
    rewrite (filter_all (λ t, ¬ strict_eq (address t) (address e))); [simpl; lia|].
    eapply Forall_impl; [exact Hx|]. intros y Hxy Hye. apply Hxy.
    eapply strict_eq_trans; [by apply Is_true_true|].
    by apply strict_eq_sym.
  - rewrite filter_cons_True by (rewrite Hxe; auto).
    specialize (IH Hl). simpl. lia.
Qed.

Lemma take_others e l :
  distinct_ids l →
  take 99 (others e (take MAX_TOKENS l)) = take 99 (others e l).
Proof.
  intros Hl. destruct (decide (length l ≤ MAX_TOKENS)%nat) as [Hle|Hgt].
  - by rewrite (take_ge l MAX_TOKENS).
  - rewrite <- (take_drop MAX_TOKENS l) at 2.
    rewrite filter_app, take_app_le; [done|].
    pose proof (others_length e (take MAX_TOKENS l) (distinct_ids_take _ _ Hl)) as Hlen.
    rewrite length_take in Hlen. unfold MAX_TOKENS in *. lia.
Qed.

Lemma upserts_snoc es e tokens :
  upserts (es ++ [e]) tokens = addToken e (upserts es tokens).
Proof. unfold upserts. by rewrite foldl_snoc. Qed.

Lemma upserts_length es tokens :
  (length tokens ≤ MAX_TOKENS)%nat → (length (upserts es tokens) ≤ MAX_TOKENS)%nat.
Proof.
  induction es as [|e es IH] using rev_ind; [done|]. intros _.
  rewrite upserts_snoc. apply addToken_length.
Qed.

Lemma upserts_most_recent es :
  upserts es [] = take MAX_TOKENS (most_recent es).
Proof.
  induction es as [|e es IH] using rev_ind; [done|].
  rewrite upserts_snoc, IH, addToken_cons, most_recent_snoc.
  rewrite take_others by apply most_recent_distinct. done.
Qed.
End Capacity.

(** C2. Whatever the upserts, a store within the capacity stays within
    it; and the store a history of upserts builds from the empty store is
    the list of the ids upserted, each with its latest payload, the most
    recently upserted first, cut after [MAX_TOKENS] entries: what is
    dropped is what was upserted longest ago. No timestamp is consulted. *)
Theorem upserts_keep_most_recent (es : list Token) :
  (∀ tokens, (length tokens ≤ MAX_TOKENS)%nat →
             (length (upserts es tokens) ≤ MAX_TOKENS)%nat)
  ∧ upserts es [] = take MAX_TOKENS (most_recent es).
Proof.
  split; [intros tokens; apply upserts_length | apply upserts_most_recent].
Qed.

Lemma upserts_keep_most_recent_witness :
  (length (upserts [sample_token; sample_token] [sample_token]) ≤ MAX_TOKENS)%nat.
Proof.
  apply (proj1 (upserts_keep_most_recent [sample_token; sample_token]) [sample_token]).
  unfold MAX_TOKENS. simpl. lia.
Defined.

(** ** The sweep *)

(** C3, as the code has it. After [cleanupOldTokens now] the store holds
    exactly the entries fetched strictly later than [now - MAX_AGE_MS],
    in their old relative order: an entry fetched at [now - MAX_AGE_MS]
    or before is removed. *)
Theorem cleanupOldTokens_keeps_newer (now : Z) (tokens : list Token) :
  (∀ t, t ∈ cleanupOldTokens now tokens ↔ t ∈ tokens ∧ now - MAX_AGE_MS < fetchedAt t)
  ∧ cleanupOldTokens now tokens `sublist_of` tokens.
Proof.
  unfold cleanupOldTokens. split.
  - intros t. rewrite list_elem_of_filter. tauto.
  - apply sublist_filter.
Qed.

(** C3 as stated fails at the boundary: an entry whose [fetchedAt] equals
    [now - MAX_AGE_MS] is swept. *)
Lemma cleanupOldTokens_drops_boundary :
  fetchedAt sample_token >= MAX_AGE_MS - MAX_AGE_MS
  ∧ sample_token ∈ [sample_token]
  ∧ sample_token ∉ cleanupOldTokens MAX_AGE_MS [sample_token].
Proof.
  split; [vm_compute; discriminate|]. split; [apply list_elem_of_here|].
  vm_compute. apply not_elem_of_nil.
Qed.

(** ** The recency query *)

Lemma take_min_length {A} (l : list A) (q : Z) :
  0 <= q → take (Z.to_nat (Z.min q (Z.of_nat (length l)))) l = take (Z.to_nat q) l.
Proof.
  intros Hq. destruct (Z.le_gt_cases q (Z.of_nat (length l))).
  - by rewrite Z.min_l.
  - rewrite Z.min_r by lia. rewrite Nat2Z.id, !take_ge by lia. done.
Qed.

Lemma slice0_prefix {A} (l : list A) (q : Z) : slice0 l q `prefix_of` l.
Proof. apply prefix_take. Qed.

Lemma slice0_nonneg {A} (l : list A) (q : Z) :
  0 <= q → slice0 l q = take (Z.to_nat q) l.
Proof.
  intros Hq. unfold slice0.
  destruct (Z.ltb_spec q 0); [lia|]. by apply take_min_length.
Qed.

Lemma get_pulse_tokens_run `{!Builtins} now limit c tokens s :
  ToString limit = Some s →
  get_pulse_tokens now limit c tokens
  = (Some {| resp_tokens :=
               slice0 (cleanupOldTokens now tokens)
                 (Z.min (match parseInt s with
                         | Some k => if k =? 0 then 50 else k
                         | None => 50
                         end) 100);
             resp_count := length (cleanupOldTokens now tokens);
             resp_wsConnected := wsConnected c |},
     cleanupOldTokens now tokens).
Proof.
  intros Hs. unfold get_pulse_tokens, query_limit. rewrite Hs. reflexivity.
Qed.

(** C4, as the code has it. The query sweeps, then answers with the
    count of the entries kept and with a prefix of them: the first
    [min k 100] when the limit reads as an integer [k > 0], the first 50
    when it is missing, unreadable or reads as zero. *)
Theorem get_pulse_tokens_limit `{!Builtins}
    (now : Z) (limit : JValue) (c : Connector) (tokens : list Token) (s : string) :
  ToString limit = Some s →
  let kept := cleanupOldTokens now tokens in
  ∃ resp,
    get_pulse_tokens now limit c tokens = (Some resp, kept)
    ∧ resp_count resp = length kept
    ∧ resp_tokens resp `prefix_of` kept
    ∧ (∀ k, parseInt s = Some k → 0 < k →
            resp_tokens resp = take (Z.to_nat (Z.min k 100)) kept)
    ∧ (parseInt s = None ∨ parseInt s = Some 0 →
       resp_tokens resp = take 50 kept).
Proof.
  intros Hs kept. eexists. split; [by apply get_pulse_tokens_run|].
  cbn [resp_tokens resp_count].
  split; [done|]. split; [apply slice0_prefix|]. split.
  - intros k Hk Hpos. rewrite Hk.
    destruct (Z.eqb_spec k 0); [lia|]. apply slice0_nonneg. lia.
  - intros Hk.
    assert (Hq : match parseInt s with
                 | Some k => if k =? 0 then 50 else k
                 | None => 50
                 end = 50) by (destruct Hk as [-> | ->]; done).
    rewrite Hq. by rewrite slice0_nonneg.
Qed.

Lemma get_pulse_tokens_limit_witness :
  parseInt "1" = Some 1 ∧ 0 < 1
  ∧ ∃ resp,
      @get_pulse_tokens no_conversion 1 (JStr "1") sample_connector
        [sample_token; sample_token] = (Some resp, [sample_token; sample_token])
      ∧ resp_tokens resp = [sample_token].
Proof.
  split; [reflexivity|]. split; [lia|].
  destruct (@get_pulse_tokens_limit no_conversion 1 (JStr "1") sample_connector
              [sample_token; sample_token] "1" eq_refl)
    as (resp & Hrun & _ & _ & Hpos & _).
  exists resp. split; [exact Hrun|].
  apply (Hpos 1); [reflexivity | lia].
Defined.

(** C4 as stated fails for the limit 0, which [|| 50] replaces by the
    default: an entry is returned although the limit is zero. *)
Lemma get_pulse_tokens_limit_zero :
  @ToString no_conversion (JStr "0") = Some "0" ∧ parseInt "0" = Some 0
  ∧ resp_tokens <$> (@get_pulse_tokens no_conversion 1 (JStr "0")
                       sample_connector [sample_token]).1
    = Some [sample_token].
Proof. repeat split; reflexivity. Qed.

(** ** The feed handler *)

Ltac run_handler :=
  cbv beta iota delta
    [run try_catch update get_tokens_var JSON_parse string_receiver
     throw step mbind mret M_bind M_ret Get fst snd default from_option id].

Lemma truthy_JUndefined_ne (v : JValue) : truthy v = true → v ≠ JUndefined ∧ v ≠ JStr "".
Proof. destruct v; simpl; try discriminate; split; try discriminate. intros [= ->]. discriminate. Qed.

(** The handler leaves the store alone unless the message is an object
    whose [txType] is ["create"] and whose [mint] is truthy. *)
Lemma on_message_ignored `{!Builtins} iso now data tokens :
  (∀ r fs, data = Parsed (JObj r fs) →
           strict_eq (assoc "txType" fs) (JStr "create") && truthy (assoc "mint" fs) = false) →
  run (on_message iso now data) tokens = tokens.
Proof.
  intros Hno. unfold on_message.
  destruct data as [|[]]; try (run_handler; reflexivity).
  specialize (Hno _ _ eq_refl). run_handler.
  destruct (strict_eq (assoc "txType" fields) (JStr "create")); [|reflexivity].
  simpl in Hno. rewrite Hno. reflexivity.
Qed.

(** The log line may throw, but it never touches the store. *)
Lemma log_line_result `{!Builtins} (token : Token) (tokens : list Token) :
  log_line token tokens = (if logs token then Some tt else None, tokens).
Proof.
  unfold log_line, logs. run_handler.
  destruct (ToString (symbol token)); [|done].
  destruct (address token) as [| | | | |ref l|]; try done.
  destruct (ToString (JArr ref (take 8 l))) eqn:Hl.
  - by rewrite bool_decide_eq_true_2.
  - rewrite bool_decide_eq_false_2; [done|]. by intros [? ?].
Qed.

(** What the handler stores for an accepted message whose [uri] is a
    string or is falsy and whose numeric fields convert. *)
Lemma on_message_accepted `{!Builtins} iso now r fs tokens cap progress :
  assoc "txType" fs = JStr "create" →
  truthy (assoc "mint" fs) = true →
  (truthy (assoc "uri" fs) = false ∨ ∃ s, assoc "uri" fs = JStr s) →
  feed_marketCap (assoc "marketCapSol" fs) = Some cap →
  feed_progress (assoc "vSolInBondingCurve" fs) = Some progress →
  run (on_message iso now (Parsed (JObj r fs))) tokens =
  addToken
    {| address := assoc "mint" fs;
       symbol := js_or (assoc "symbol" fs) (JStr "UNKNOWN");
       name := js_or (assoc "name" fs) (JStr "Unknown Token");
       logo := match assoc "uri" fs with
               | JStr s =>
                   if truthy (JStr s) then
                     if startsWith s "ipfs://"
                     then JStr (IPFS_GATEWAY ++ replace s "ipfs://" "")%string
                     else if startsWith s "http" then JStr s
                          else JStr (IPFS_GATEWAY ++ s)%string
                   else JUndefined
               | _ => JUndefined
               end;
       price := lit_0_000001;
       marketCap := cap;
       bondingProgress := Some progress;
       createdAt := JStr iso;
       fetchedAt := now |}
    tokens.
Proof.
  intros Htx Hmint Huri Hcap Hprogress. unfold on_message. run_handler.
  rewrite Htx, Hmint.
  replace (strict_eq (JStr "create") (JStr "create")) with true by reflexivity.
  run_handler.
  destruct Huri as [Hfalsy | [s Hs]].
  - rewrite Hfalsy, Hcap, Hprogress.
    destruct (assoc "uri" fs) eqn:Hu; try (simpl in Hfalsy; discriminate);
      try (rewrite log_line_result; reflexivity).
    rewrite Hfalsy. rewrite log_line_result. reflexivity.
  - rewrite Hs. destruct (truthy (JStr s)) eqn:Ht.
    + destruct (startsWith s "ipfs://");
        [rewrite Hcap, Hprogress, log_line_result; reflexivity|].
      destruct (startsWith s "http");
        rewrite Hcap, Hprogress, log_line_result; reflexivity.
    + rewrite Hcap, Hprogress, log_line_result. reflexivity.
Qed.

(** C5. The handler changes the store only for a message that is an
    object whose [txType] is ["create"] and whose [mint] is present and
    not the empty string; a frame that is not JSON, a message whose
    [txType] is not ["create"], and a message whose [mint] is absent or
    empty leave the store as it was. *)
Theorem on_message_filter `{!Builtins}
    (iso : string) (now : Z) (data : parse_result) (tokens : list Token) :
  (run (on_message iso now data) tokens ≠ tokens →
     ∃ r fs, data = Parsed (JObj r fs)
             ∧ assoc "txType" fs = JStr "create"
             ∧ assoc "mint" fs ≠ JUndefined ∧ assoc "mint" fs ≠ JStr "")
  ∧ (data = SyntaxError
     ∨ (∃ msg, data = Parsed msg
          ∧ (Get msg "txType" ≠ Some (JStr "create")
             ∨ Get msg "mint" = Some JUndefined
             ∨ Get msg "mint" = Some (JStr ""))) →
     run (on_message iso now data) tokens = tokens).
Proof.
  split.
  - intros Hchanged.
    destruct data as [|msg];
      [exfalso; apply Hchanged, on_message_ignored; intros; discriminate|].
    destruct msg as [| | | | |ref elts|r fs];
      try (exfalso; apply Hchanged, on_message_ignored; intros; discriminate).
    destruct (strict_eq (assoc "txType" fs) (JStr "create")) eqn:Htx;
      [|exfalso; apply Hchanged, on_message_ignored; intros ? ? [= <- <-];
        by rewrite Htx].
    destruct (truthy (assoc "mint" fs)) eqn:Hmint;
      [|exfalso; apply Hchanged, on_message_ignored; intros ? ? [= <- <-];
        by rewrite Htx, Hmint].
    exists r, fs. split; [done|]. split; [by apply strict_eq_str|].
    by apply truthy_JUndefined_ne.
  - intros Hmissing. apply on_message_ignored. intros r fs ->.
    destruct Hmissing as [?|(msg & [= <-] & Hfield)]; [discriminate|].
    simpl in Hfield. destruct Hfield as [Htx|[Hmint|Hmint]].
    + destruct (strict_eq (assoc "txType" fs) (JStr "create")) eqn:Heq; [|done].
      apply strict_eq_str in Heq. congruence.
    + injection Hmint as ->. apply andb_false_r.
    + injection Hmint as ->. apply andb_false_r.
Qed.

Lemma on_message_filter_witness :
  Get mintless_message "mint" = Some JUndefined
  ∧ run (@on_message no_conversion "t" 1 (Parsed mintless_message)) [sample_token]
    = [sample_token].
Proof.
  split; [reflexivity|].
  apply (@on_message_filter no_conversion "t" 1 (Parsed mintless_message) [sample_token]).
  right. exists mintless_message. split; [reflexivity|]. right; left. reflexivity.
Defined.

Lemma replace_prefix (s p : string) :
  startsWith s p = true → replace s p "" = drop_chars (String.length p) s.
Proof.
  unfold startsWith. intros Hp.
  assert (Heq : replace s p "" =
                if String.prefix p s then (EmptyString ++ drop_chars (String.length p) s)%string
                else match s with
                     | EmptyString => EmptyString
                     | String c s' => String c (replace s' p "")
                     end) by (destruct s; reflexivity).
  by rewrite Heq, Hp.
Qed.

Lemma startsWith_http_not_ipfs (s : string) :
  startsWith s "http" = true → startsWith s "ipfs://" = false.
Proof.
  unfold startsWith. destruct s as [|c s]; cbn [String.prefix]; [discriminate|].
  destruct (ascii_dec "h" c) as [<-|]; [|discriminate]. intros _.
  by destruct (ascii_dec "i" "h").
Qed.

(** C6, as the code has it. For an accepted message, one that passes
    the filter and whose numeric fields convert, so that an entry is
    stored: when its [uri] is a non-empty string [u] the stored entry's
    [logo] is the gateway URL of [u] without its prefix when [u] starts
    with ["ipfs://"], [u] itself when [u] starts with ["http"], and the
    gateway base followed by [u] otherwise. When [uri] is absent or the
    empty string, [logo] is left undefined. *)
Theorem on_message_logo `{!Builtins}
    (iso : string) (now : Z) (r : nat) (fs : list (string * JValue))
    (tokens : list Token) :
  assoc "txType" fs = JStr "create" →
  truthy (assoc "mint" fs) = true →
  is_Some (feed_marketCap (assoc "marketCapSol" fs)) →
  is_Some (feed_progress (assoc "vSolInBondingCurve" fs)) →
  (∀ u, assoc "uri" fs = JStr u → u ≠ "" →
     ∃ t rest,
       run (on_message iso now (Parsed (JObj r fs))) tokens = t :: rest
       ∧ (startsWith u "ipfs://" = true →
          logo t = JStr (IPFS_GATEWAY ++ drop_chars 7 u)%string)
       ∧ (startsWith u "http" = true → logo t = JStr u)
       ∧ (startsWith u "ipfs://" = false → startsWith u "http" = false →
          logo t = JStr (IPFS_GATEWAY ++ u)%string))
  ∧ (assoc "uri" fs = JUndefined ∨ assoc "uri" fs = JStr "" →
     ∃ t rest,
       run (on_message iso now (Parsed (JObj r fs))) tokens = t :: rest
       ∧ logo t = JUndefined).
Proof.
  intros Htx Hmint [cap Hcap] [progress Hprogress]. split.
  - intros u Hu Hne.
    rewrite (on_message_accepted iso now r fs tokens cap progress) by eauto.
    rewrite addToken_cons.
    eexists _, _. split; [reflexivity|].
    assert (Ht : truthy (JStr u) = true).
    { simpl. destruct (String.eqb_spec u ""); [contradiction|done]. }
    cbn [logo]. rewrite Hu. cbv beta iota. rewrite Ht. repeat split.
    + intros Hp. rewrite Hp. by rewrite replace_prefix.
    + intros Hp. by rewrite (startsWith_http_not_ipfs u Hp), Hp.
    + intros Hp1 Hp2. by rewrite Hp1, Hp2.
  - intros Hu.
    rewrite (on_message_accepted iso now r fs tokens cap progress); eauto.
    + rewrite addToken_cons. eexists _, _. split; [reflexivity|]. simpl.
      by destruct Hu as [-> | ->].
    + left. by destruct Hu as [-> | ->].
Qed.

Lemma on_message_logo_witness :
  ∃ t rest,
    run (@on_message no_conversion "t" 1 (Parsed (uri_message "ipfs://abc123"))) []
    = t :: rest
    ∧ logo t = JStr "https://ipfs.io/ipfs/abc123".
Proof.
  destruct (@on_message_logo no_conversion "t" 1 0
              [("txType", JStr "create"); ("mint", JStr "ABC");
               ("uri", JStr "ipfs://abc123")] [] eq_refl eq_refl
              (mk_is_Some _ _ eq_refl) (mk_is_Some _ _ eq_refl)) as [Hstr _].
  destruct (Hstr "ipfs://abc123" eq_refl ltac:(discriminate))
    as (t & rest & Hrun & Hipfs & _).
  exists t, rest. split; [exact Hrun|]. exact (Hipfs eq_refl).
Defined.

(** C6 as stated fails for the empty string: it starts with neither
    prefix, yet the entry gets no [logo] instead of the gateway base. *)
Lemma on_message_logo_empty_uri :
  startsWith "" "ipfs://" = false ∧ startsWith "" "http" = false
  ∧ logo <$> head (run (@on_message no_conversion "t" 1 (Parsed (uri_message ""))) [])
    = Some JUndefined
  ∧ JUndefined ≠ JStr (IPFS_GATEWAY ++ "")%string.
Proof. repeat split; done. Qed.

Lemma num_eqb_or_zero (m r : num) :
  is_nan m = false → is_nan r = false → (is_zero m = true → is_zero r = true) →
  num_eqb (if truthy (JNum m) then r else num_zero) r = true.
Proof.
  intros Hm Hr Hz. simpl. rewrite Hm, orb_false_r.
  destruct (is_zero m); simpl.
  - apply num_eqb_spec. left. auto.
  - by apply num_eqb_refl.
Qed.

Lemma feed_marketCap_num `{!Builtins} (m : num) :
  feed_marketCap (JNum m)
  = Some (if truthy (JNum m) then num_mul m lit_185 else num_zero).
Proof. unfold feed_marketCap. by destruct (truthy (JNum m)). Qed.

Lemma feed_progress_num `{!Builtins} (v : num) :
  feed_progress (JNum v)
  = Some (if truthy (JNum v) then num_mul (num_div v lit_85) lit_100 else num_zero).
Proof. unfold feed_progress. by destruct (truthy (JNum v)). Qed.

(** C7. For an accepted message, one that passes the filter and whose
    numeric fields convert, so that an entry is stored: the entry's
    [marketCap] is the message's [marketCapSol] times 185 and its
    [bondingProgress] is [vSolInBondingCurve] divided by 85, times 100,
    both in binary64 and equal in the sense of [===]; [bondingProgress]
    is 0 when the field is absent, and [symbol] is the message's when it
    has one. The message [{txType:"create", mint:"ABC", symbol:"FOO",
    marketCapSol:10, vSolInBondingCurve:42.5}] gives 1850, 50 and
    ["FOO"]. *)
Theorem on_message_numbers `{!Builtins}
    (iso : string) (now : Z) (r : nat) (fs : list (string * JValue))
    (tokens : list Token) :
  (assoc "txType" fs = JStr "create" →
   truthy (assoc "mint" fs) = true →
   truthy (assoc "uri" fs) = false ∨ (∃ s, assoc "uri" fs = JStr s) →
   is_Some (feed_marketCap (assoc "marketCapSol" fs)) →
   is_Some (feed_progress (assoc "vSolInBondingCurve" fs)) →
   ∃ t rest,
     run (on_message iso now (Parsed (JObj r fs))) tokens = t :: rest
     ∧ (∀ m, assoc "marketCapSol" fs = JNum m → is_nan m = false →
             num_eqb (marketCap t) (num_mul m lit_185) = true)
     ∧ (∀ v, assoc "vSolInBondingCurve" fs = JNum v → is_nan v = false →
             ∃ p, bondingProgress t = Some p
                  ∧ num_eqb p (num_mul (num_div v lit_85) lit_100) = true)
     ∧ (assoc "vSolInBondingCurve" fs = JUndefined →
        bondingProgress t = Some num_zero)
     ∧ (∀ s, assoc "symbol" fs = JStr s → s ≠ "" → symbol t = JStr s))
  ∧ (∃ t, run (on_message iso now (Parsed create_message)) [] = [t]
          ∧ marketCap t = num_of_Z 1850
          ∧ bondingProgress t = Some (num_of_Z 50)
          ∧ symbol t = JStr "FOO").
Proof.
  split.
  - intros Htx Hmint Huri [cap Hcap] [progress Hprogress].
    rewrite (on_message_accepted iso now r fs tokens cap progress) by done.
    rewrite addToken_cons.
    eexists _, _. split; [reflexivity|]. repeat split.
    + intros m Hm Hnan. cbn [marketCap].
      rewrite Hm, feed_marketCap_num in Hcap. injection Hcap as <-.
      apply num_eqb_or_zero; [done|by apply num_mul_not_nan|].
      by destruct m.
    + intros v Hv Hnan. cbn [bondingProgress].
      rewrite Hv, feed_progress_num in Hprogress. injection Hprogress as <-.
      eexists. split; [reflexivity|].
      apply num_eqb_or_zero; [done| |by destruct v].
      by apply num_mul_not_nan, num_div_not_nan.
    + intros Hv. cbn [bondingProgress].
      rewrite Hv in Hprogress. by injection Hprogress as <-.
    + intros s Hs Hne. cbn [symbol]. rewrite Hs. unfold js_or. simpl.
      by destruct (String.eqb_spec s "").
  - eexists. split; [reflexivity|]. by vm_compute.
Qed.

Lemma on_message_numbers_witness :
  ∃ t rest,
    run (@on_message no_conversion "t" 1 (Parsed create_message)) [sample_token]
    = t :: rest
    ∧ num_eqb (marketCap t) (num_mul (num_of_Z 10) lit_185) = true.
Proof.
  destruct (@on_message_numbers no_conversion "t" 1 0
              [("txType", JStr "create"); ("mint", JStr "ABC"); ("symbol", JStr "FOO");
               ("marketCapSol", JNum (num_of_Z 10));
               ("vSolInBondingCurve", JNum num_42_5)] [sample_token])
    as [Hgen _].
  destruct (Hgen eq_refl eq_refl (or_introl eq_refl)
              (mk_is_Some _ _ eq_refl) (mk_is_Some _ _ eq_refl))
    as (t & rest & Hrun & Hcap & _).
  exists t, rest. split; [exact Hrun|]. exact (Hcap _ eq_refl eq_refl).
Defined.

(** ** Reconnection *)

Lemma closes_step (n : nat) (c : Connector) :
  closes (S n) c =
  if reconnectAttempts c <? MAX_RECONNECT_ATTEMPTS
  then let r := closes n {| ws := Some CONNECTING;
                            reconnectAttempts := reconnectAttempts c + 1 |} in
       (r.1, SetTimeout RECONNECT_DELAY :: r.2)
  else closes n {| ws := None; reconnectAttempts := reconnectAttempts c |}.
Proof.
  cbn [closes]. unfold on_close.
  destruct (reconnectAttempts c <? MAX_RECONNECT_ATTEMPTS).
  - unfold connectToPumpPortal. cbn [reconnectAttempts].
    by destruct (closes n _).
  - by destruct (closes n _).
Qed.

Lemma closes_exhausted (k : nat) : closes k exhausted = (exhausted, []).
Proof.
  induction k as [|k IH]; [done|]. rewrite closes_step.
  change (reconnectAttempts exhausted <? MAX_RECONNECT_ATTEMPTS) with false.
  exact IH.
Qed.

Lemma closes_effects (n : nat) (c : Connector) :
  0 <= reconnectAttempts c <= MAX_RECONNECT_ATTEMPTS →
  (closes n c).2 =
  replicate (n `min` Z.to_nat (MAX_RECONNECT_ATTEMPTS - reconnectAttempts c))
            (SetTimeout RECONNECT_DELAY).
Proof.
  revert c. induction n as [|n IH]; intros c Ha; [done|].
  rewrite closes_step. unfold MAX_RECONNECT_ATTEMPTS in *.
  destruct (Z.ltb_spec (reconnectAttempts c) 10) as [Hlt|Hge].
  - cbn [snd]. rewrite IH by (cbn [reconnectAttempts]; lia).
    cbn [reconnectAttempts].
    replace (Z.to_nat (10 - reconnectAttempts c))
      with (S (Z.to_nat (10 - (reconnectAttempts c + 1)))) by lia.
    done.
  - replace (reconnectAttempts c) with 10 by lia.
    change (closes n _) with (closes n exhausted).
    rewrite closes_exhausted.
    change (Z.to_nat (10 - 10)) with 0%nat. by rewrite Nat.min_0_r.
Qed.

Lemma closes_final (n : nat) (c : Connector) :
  0 <= reconnectAttempts c <= MAX_RECONNECT_ATTEMPTS →
  (Z.to_nat (MAX_RECONNECT_ATTEMPTS - reconnectAttempts c) < n)%nat →
  (closes n c).1 = exhausted.
Proof.
  revert c. induction n as [|n IH]; intros c Ha Hn; [lia|].
  rewrite closes_step. unfold MAX_RECONNECT_ATTEMPTS in *.
  destruct (Z.ltb_spec (reconnectAttempts c) 10) as [Hlt|Hge].
  - cbn [fst]. apply IH; cbn [reconnectAttempts]; lia.
  - replace (reconnectAttempts c) with 10 by lia.
    change (closes n _) with (closes n exhausted).
    by rewrite closes_exhausted.
Qed.

(** C8. From a connector whose counter is zero, [n] close events in a
    row schedule exactly [min n 10] reconnections, each by a timer of
    5000 ms. Once more than ten closes have happened the connector has
    no socket and its counter is 10, and no later close schedules
    anything or changes it. An [open] event sets the counter to zero. *)
Theorem closes_schedule (c : Connector) (n : nat) :
  reconnectAttempts c = 0 →
  (closes n c).2 = replicate (n `min` 10) (SetTimeout 5000)
  ∧ ((10 < n)%nat →
     (closes n c).1 = {| ws := None; reconnectAttempts := 10 |}
     ∧ wsConnected (closes n c).1 = false
     ∧ ∀ k, closes k (closes n c).1 = ((closes n c).1, []))
  ∧ ∀ c', reconnectAttempts (on_open c').1 = 0.
Proof.
  intros H0. split; [|split].
  - rewrite closes_effects by (rewrite H0; unfold MAX_RECONNECT_ATTEMPTS; lia).
    by rewrite H0.
  - intros Hn.
    rewrite closes_final;
      [|rewrite H0; unfold MAX_RECONNECT_ATTEMPTS; lia
       |rewrite H0; unfold MAX_RECONNECT_ATTEMPTS; lia].
    repeat split; try done. apply closes_exhausted.
  - done.
Qed.

Lemma closes_schedule_witness :
  (closes 12 sample_connector).2 = replicate 10 (SetTimeout 5000).
Proof.
  apply (closes_schedule sample_connector 12). reflexivity.
Defined.

(** ** The image patch *)

Lemma set_logo_same_but_logo (l : JValue) (t : Token) : same_but_logo t (set_logo l t).
Proof. by repeat split. Qed.

Lemma same_but_logo_refl (t : Token) : same_but_logo t t.
Proof. by repeat split. Qed.

Lemma patchImage_found (id imageUrl : JValue) (tokens : list Token) (i : nat) (t : Token) :
  tokens !! i = Some t →
  strict_eq (address t) id →
  (∀ j u, tokens !! j = Some u → (j < i)%nat → ¬ strict_eq (address u) id) →
  patchImage id imageUrl tokens = alter (set_logo imageUrl) i tokens.
Proof.
  intros Hi Hid Hfirst. unfold patchImage.
  by rewrite (proj2 (list_find_Some (λ t, strict_eq (address t) id) tokens i t)).
Qed.

Lemma patchImage_absent (id imageUrl : JValue) (tokens : list Token) :
  Forall (λ t, ¬ strict_eq (address t) id) tokens →
  patchImage id imageUrl tokens = tokens.
Proof.
  intros Hno. unfold patchImage.
  by rewrite (proj2 (list_find_None (λ t, strict_eq (address t) id) tokens)).
Qed.

(** C9, as the code has it. [patchImage id imageUrl] keeps the size of
    the store and every entry's position and fields other than [logo];
    it sets the [logo] of the first entry stored under [id], whichever
    upsert put it there, and of no other entry; when no entry is stored
    under [id] the store is left as it was. *)
Theorem patchImage_frame (id imageUrl : JValue) (tokens : list Token) :
  length (patchImage id imageUrl tokens) = length tokens
  ∧ (∀ j u, tokens !! j = Some u →
       ∃ u', patchImage id imageUrl tokens !! j = Some u' ∧ same_but_logo u u')
  ∧ (Forall (λ t, ¬ strict_eq (address t) id) tokens →
     patchImage id imageUrl tokens = tokens)
  ∧ (∀ i t, tokens !! i = Some t →
       strict_eq (address t) id →
       (∀ j u, tokens !! j = Some u → (j < i)%nat → ¬ strict_eq (address u) id) →
       patchImage id imageUrl tokens !! i = Some (set_logo imageUrl t)
       ∧ logo (set_logo imageUrl t) = imageUrl
       ∧ ∀ j, j ≠ i → patchImage id imageUrl tokens !! j = tokens !! j).
Proof.
  assert (Hcases : patchImage id imageUrl tokens = tokens
                   ∨ ∃ i, patchImage id imageUrl tokens = alter (set_logo imageUrl) i tokens).
  { unfold patchImage. destruct (list_find _ tokens) as [[i t]|]; eauto. }
  split; [|split; [|split]].
  - destruct Hcases as [-> | [i ->]]; [done | apply length_alter].
  - intros j u Hj. destruct Hcases as [-> | [i ->]].
    + eauto using same_but_logo_refl.
    + rewrite list_lookup_alter. case_decide as Hij.
      * subst j. rewrite Hj. eauto using set_logo_same_but_logo.
      * eauto using same_but_logo_refl.
  - apply patchImage_absent.
  - intros i t Hi Hid Hfirst.
    rewrite (patchImage_found id imageUrl tokens i t) by done.
    split; [by rewrite list_lookup_alter_eq, Hi|]. split; [done|].
    intros j Hj. by apply list_lookup_alter_ne.
Qed.

Lemma patchImage_frame_witness :
  patchImage (JStr "ABC") (JStr "img") [sample_token] !! 0%nat
  = Some (set_logo (JStr "img") sample_token).
Proof.
  destruct (patchImage_frame (JStr "ABC") (JStr "img") [sample_token])
    as (_ & _ & _ & Hfound).
  apply (Hfound 0%nat sample_token eq_refl).
  - exact I.
  - intros j u _ Hj. lia.
Defined.

(** C9 as stated fails when the entry was replaced: the feed ingests
    ["ABC"] and starts the lookup, the poller upserts another entry for
    ["ABC"], and the lookup's answer then changes the poller's entry. *)
Lemma on_image_patches_replacement :
  ∃ ingested replacement,
    @on_message_lookup no_conversion "t" 1 (Parsed (uri_message "http://meta")) []
    = (Some (Some ("http://meta", ingested)), [ingested])
    ∧ run (@fetchFromMoralis no_conversion (λ _, ("t", 2))
             (Response true (Parsed replacing_batch))) [ingested]
      = [replacement]
    ∧ (ingested ∉ [replacement])
    ∧ run (on_image ingested (JStr "img")) [replacement]
      = [set_logo (JStr "img") replacement]
    ∧ [set_logo (JStr "img") replacement] ≠ [replacement].
Proof.
  eexists _, _. split; [reflexivity|]. split; [reflexivity|].
  split; [|split; [reflexivity|]].
  - intros Hin. apply list_elem_of_singleton in Hin. discriminate.
  - intros [=].
Qed.

(** ** The poller *)

(** The poller upserts one entry per item of the batch, in order, as
    long as the items are objects. *)
Lemma fetchFromMoralis_objects `{!Builtins} clock r0 fs0 r1 items tokens :
  assoc "result" fs0 = JArr r1 items →
  run (fetchFromMoralis clock (Response true (Parsed (JObj r0 fs0)))) tokens
  = run (for_of (λ i item,
                   token ← moralis_token (clock i).1 (clock i).2 item;
                   update (addToken token))
                0%nat (take 30 items)) tokens.
Proof.
  intros Hres. unfold fetchFromMoralis. run_handler. rewrite Hres. reflexivity.
Qed.

Lemma moralis_token_object `{!Builtins} iso now r fs tokens sprice scap :
  ToString (price_source fs) = Some sprice →
  ToString (cap_source fs) = Some scap →
  moralis_token iso now (JObj r fs) tokens
  = (Some {| address := js_or (assoc "tokenAddress" fs) (assoc "address" fs);
             symbol := js_or (assoc "symbol" fs) (JStr "UNKNOWN");
             name := js_or (assoc "name" fs) (JStr "Unknown");
             logo := js_or (assoc "logo" fs) (assoc "image" fs);
             price := parseFloat sprice;
             marketCap := parseFloat scap;
             bondingProgress := None;
             createdAt := js_or (assoc "createdAt" fs) (JStr iso);
             fetchedAt := now |}, tokens).
Proof.
  intros Hp Hc. unfold moralis_token, price_source, cap_source in *. run_handler.
  by rewrite Hp, Hc.
Qed.

Lemma moralis_token_idless `{!Builtins} iso now r fs tokens :
  assoc "tokenAddress" fs = JUndefined →
  assoc "address" fs = JUndefined →
  is_Some (ToString (price_source fs)) →
  is_Some (ToString (cap_source fs)) →
  ∃ t, moralis_token iso now (JObj r fs) tokens = (Some t, tokens)
       ∧ address t = JUndefined ∧ fetchedAt t = now.
Proof.
  intros Hta Ha [sp Hp] [sc Hc].
  rewrite (moralis_token_object iso now r fs tokens sp sc Hp Hc).
  eexists. split; [reflexivity|]. cbn [address fetchedAt].
  by rewrite Hta, Ha.
Qed.

(** C10. An item that carries neither [tokenAddress] nor [address], and
    whose prices convert to strings, is upserted all the same, under the
    id [undefined]; and of two such items the second takes the place of
    the first: one entry is stored under [undefined], that of the second
    item. *)
Theorem fetchFromMoralis_idless `{!Builtins}
    (clock : nat → string * Z) (r0 r1 ra rb : nat)
    (fs0 fa fb : list (string * JValue)) (tokens : list Token) :
  assoc "tokenAddress" fa = JUndefined → assoc "address" fa = JUndefined →
  assoc "tokenAddress" fb = JUndefined → assoc "address" fb = JUndefined →
  is_Some (ToString (price_source fa)) → is_Some (ToString (cap_source fa)) →
  is_Some (ToString (price_source fb)) → is_Some (ToString (cap_source fb)) →
  (assoc "result" fs0 = JArr r1 [JObj ra fa] →
   ∃ t rest,
     run (fetchFromMoralis clock (Response true (Parsed (JObj r0 fs0)))) tokens
     = t :: rest
     ∧ address t = JUndefined)
  ∧ (assoc "result" fs0 = JArr r1 [JObj ra fa; JObj rb fb] →
     ∃ t rest,
       run (fetchFromMoralis clock (Response true (Parsed (JObj r0 fs0)))) tokens
       = t :: rest
       ∧ address t = JUndefined
       ∧ fetchedAt t = (clock 1%nat).2
       ∧ filter (λ u, strict_eq (address u) JUndefined) (t :: rest) = [t]).
Proof.
  intros Hta Ha Htb Hb Hpa Hca Hpb Hcb. split; intros Hres.
  - rewrite (fetchFromMoralis_objects _ _ _ _ _ _ Hres).
    cbn [firstn for_of]. destruct (clock 0%nat) as [iso0 now0].
    destruct (moralis_token_idless iso0 now0 ra fa tokens Hta Ha Hpa Hca)
      as (t & Ht & Hid & _).
    run_handler. rewrite Ht. run_handler.
    rewrite addToken_cons. eauto.
  - rewrite (fetchFromMoralis_objects _ _ _ _ _ _ Hres).
    cbn [firstn for_of].
    destruct (clock 0%nat) as [iso0 now0], (clock 1%nat) as [iso1 now1].
    destruct (moralis_token_idless iso0 now0 ra fa tokens Hta Ha Hpa Hca)
      as (ta & Hta' & Hida & _).
    destruct (moralis_token_idless iso1 now1 rb fb (addToken ta tokens) Htb Hb Hpb Hcb)
      as (tb & Htb' & Hidb & Hnow).
    run_handler. rewrite Hta'. run_handler.
    rewrite Htb'. run_handler.
    pose proof (addToken_same_id ta tb tokens) as Hone.
    rewrite Hida, Hidb in Hone. specialize (Hone I).
    rewrite addToken_cons in Hone |- *. eauto 10.
Qed.

Lemma fetchFromMoralis_idless_witness :
  ∃ t rest,
    run (@fetchFromMoralis no_conversion (λ i, ("t", Z.of_nat i))
           (Response true (Parsed idless_batch))) [sample_token]
    = t :: rest
    ∧ address t = JUndefined
    ∧ filter (λ u, strict_eq (address u) JUndefined) (t :: rest) = [t].
Proof.
  destruct (@fetchFromMoralis_idless no_conversion (λ i, ("t", Z.of_nat i))
              1 2 3 4
              [("result", JArr 2 [JObj 3 [("symbol", JStr "X")];
                                  JObj 4 [("symbol", JStr "Y")]])]
              [("symbol", JStr "X")] [("symbol", JStr "Y")] [sample_token]
              eq_refl eq_refl eq_refl eq_refl
              (mk_is_Some _ _ eq_refl) (mk_is_Some _ _ eq_refl)
              (mk_is_Some _ _ eq_refl) (mk_is_Some _ _ eq_refl)) as [_ Htwo].
  destruct (Htwo eq_refl) as (t & rest & Hrun & Hid & _ & Hone).
  exists t, rest. auto.
Defined.

(* ================================================================= *)
(** * Further properties of the code *)

(** ** What the feed handlers do to the store *)

Lemma feed_entry_Some `{!Builtins} iso now fs l t :
  feed_entry iso now fs l = Some t →
  ∃ cap progress,
    feed_marketCap (assoc "marketCapSol" fs) = Some cap
    ∧ feed_progress (assoc "vSolInBondingCurve" fs) = Some progress
    ∧ t = {| address := assoc "mint" fs;
             symbol := js_or (assoc "symbol" fs) (JStr "UNKNOWN");
             name := js_or (assoc "name" fs) (JStr "Unknown Token");
             logo := l;
             price := lit_0_000001;
             marketCap := cap;
             bondingProgress := Some progress;
             createdAt := JStr iso;
             fetchedAt := now |}.
Proof.
  unfold feed_entry.
  destruct (feed_marketCap _) as [cap|]; [|discriminate].
  destruct (feed_progress _) as [progress|]; [|discriminate].
  intros [= <-]. by exists cap, progress.
Qed.

Lemma feed_entry_None `{!Builtins} iso now fs l :
  feed_entry iso now fs l = None →
  feed_marketCap (assoc "marketCapSol" fs) = None
  ∨ (∃ cap, feed_marketCap (assoc "marketCapSol" fs) = Some cap)
    ∧ feed_progress (assoc "vSolInBondingCurve" fs) = None.
Proof.
  unfold feed_entry.
  destruct (feed_marketCap _) as [cap|]; [|by left].
  destruct (feed_progress _) as [progress|]; [discriminate|]. right. eauto.
Qed.

(** Whether an entry can be built does not depend on its logo. *)
Lemma feed_entry_logo `{!Builtins} iso now fs l l' t :
  feed_entry iso now fs l = Some t →
  feed_entry iso now fs l' = Some (set_logo l' t).
Proof.
  intros (cap & progress & Hcap & Hprogress & ->)%feed_entry_Some.
  unfold feed_entry. by rewrite Hcap, Hprogress.
Qed.

Lemma on_message_entry `{!Builtins} iso now r fs tokens t :
  assoc "txType" fs = JStr "create" →
  truthy (assoc "mint" fs) = true →
  (truthy (assoc "uri" fs) = false ∨ ∃ s, assoc "uri" fs = JStr s) →
  feed_entry iso now fs (uri_locator (assoc "uri" fs)) = Some t →
  run (on_message iso now (Parsed (JObj r fs))) tokens = addToken t tokens.
Proof.
  intros Htx Hmint Huri (cap & progress & Hcap & Hprogress & ->)%feed_entry_Some.
  by rewrite (on_message_accepted iso now r fs tokens cap progress).
Qed.

(** A numeric field that cannot be converted makes the handler throw
    before it reaches [addToken]. *)
Lemma on_message_no_entry `{!Builtins} iso now r fs tokens l :
  assoc "txType" fs = JStr "create" →
  truthy (assoc "mint" fs) = true →
  feed_entry iso now fs l = None →
  run (on_message iso now (Parsed (JObj r fs))) tokens = tokens.
Proof.
  intros Htx Hmint Hnone. unfold on_message. run_handler.
  rewrite Htx, Hmint.
  replace (strict_eq (JStr "create") (JStr "create")) with true by reflexivity.
  run_handler.
  destruct (feed_entry_None _ _ _ _ Hnone) as [Hc | [[cap Hc] Hp]].
  - destruct (truthy (assoc "uri" fs));
      [destruct (assoc "uri" fs) as [| | | |s| |]; try reflexivity;
       destruct (startsWith s "ipfs://"); [|destruct (startsWith s "http")]|];
      rewrite Hc; reflexivity.
  - destruct (truthy (assoc "uri" fs));
      [destruct (assoc "uri" fs) as [| | | |s| |]; try reflexivity;
       destruct (startsWith s "ipfs://"); [|destruct (startsWith s "http")]|];
      rewrite Hc, Hp; reflexivity.
Qed.

Ltac uri_branches fs :=
  destruct (truthy (assoc "uri" fs));
    [destruct (assoc "uri" fs) as [| | | |?s| |]; try reflexivity;
     destruct (startsWith s "ipfs://"); [|destruct (startsWith s "http")]|].

Lemma on_message_lookup_entry `{!Builtins} iso now r fs tokens l t :
  assoc "txType" fs = JStr "create" →
  truthy (assoc "mint" fs) = true →
  (truthy (assoc "uri" fs) = false ∨ ∃ s, assoc "uri" fs = JStr s) →
  pump_logo (assoc "mint" fs) = Some l →
  feed_entry iso now fs l = Some t →
  on_message_lookup iso now (Parsed (JObj r fs)) tokens
  = (Some (if logs t
           then match uri_locator (assoc "uri" fs) with
                | JStr url => Some (url, t)
                | _ => None
                end
           else None),
     addToken t tokens).
Proof.
  intros Htx Hmint Huri Hl (cap & progress & Hcap & Hprogress & ->)%feed_entry_Some.
  unfold pump_logo in Hl.
  destruct (ToString (assoc "mint" fs)) as [smint|] eqn:Hsmint; [|discriminate].
  injection Hl as <-.
  unfold on_message_lookup, uri_locator. run_handler.
  rewrite Htx, Hmint.
  replace (strict_eq (JStr "create") (JStr "create")) with true by reflexivity.
  run_handler.
  destruct Huri as [Hfalsy | [s Hs]].
  - rewrite Hfalsy, Hsmint, Hcap, Hprogress, log_line_result.
    destruct (logs _);
      destruct (assoc "uri" fs) eqn:Hu; try (simpl in Hfalsy; discriminate);
      try reflexivity; by rewrite Hfalsy.
  - rewrite Hs. destruct (truthy (JStr s)) eqn:Ht.
    + destruct (startsWith s "ipfs://");
        [rewrite Hsmint, Hcap, Hprogress, log_line_result; by destruct (logs _)|].
      destruct (startsWith s "http");
        rewrite Hsmint, Hcap, Hprogress, log_line_result;
        destruct (logs _); try reflexivity. by rewrite Ht.
    + rewrite Hsmint, Hcap, Hprogress, log_line_result. by destruct (logs _).
Qed.

(** A [mint] that cannot be converted to a string, or a numeric field
    that cannot be converted, makes the second revision throw before it
    reaches [addToken]. *)
Lemma on_message_lookup_no_entry `{!Builtins} iso now r fs tokens :
  assoc "txType" fs = JStr "create" →
  truthy (assoc "mint" fs) = true →
  pump_logo (assoc "mint" fs) = None ∨ (∃ l, feed_entry iso now fs l = None) →
  on_message_lookup iso now (Parsed (JObj r fs)) tokens = (Some None, tokens).
Proof.
  intros Htx Hmint Hnone. unfold on_message_lookup. run_handler.
  rewrite Htx, Hmint.
  replace (strict_eq (JStr "create") (JStr "create")) with true by reflexivity.
  run_handler.
  destruct (ToString (assoc "mint" fs)) as [smint|] eqn:Hsmint.
  - destruct Hnone as [Hl | [l Hl]];
      [unfold pump_logo in Hl; by rewrite Hsmint in Hl|].
    destruct (feed_entry_None _ _ _ _ Hl) as [Hc | [[cap Hc] Hp]].
    + uri_branches fs; rewrite Hc; reflexivity.
    + uri_branches fs; rewrite Hc, Hp; reflexivity.
  - uri_branches fs; reflexivity.
Qed.

Lemma on_message_throws `{!Builtins} iso now r fs tokens :
  assoc "txType" fs = JStr "create" →
  truthy (assoc "mint" fs) = true →
  truthy (assoc "uri" fs) = true →
  (∀ s, assoc "uri" fs ≠ JStr s) →
  run (on_message iso now (Parsed (JObj r fs))) tokens = tokens.
Proof.
  intros Htx Hmint Huri Hns.
  unfold on_message. run_handler. rewrite Htx, Hmint, Huri.
  replace (strict_eq (JStr "create") (JStr "create")) with true by reflexivity.
  run_handler.
  destruct (assoc "uri" fs); try done. by destruct (Hns s).
Qed.

Lemma on_message_lookup_throws `{!Builtins} iso now r fs tokens :
  assoc "txType" fs = JStr "create" →
  truthy (assoc "mint" fs) = true →
  truthy (assoc "uri" fs) = true →
  (∀ s, assoc "uri" fs ≠ JStr s) →
  on_message_lookup iso now (Parsed (JObj r fs)) tokens = (Some None, tokens).
Proof.
  intros Htx Hmint Huri Hns.
  unfold on_message_lookup. run_handler. rewrite Htx, Hmint, Huri.
  replace (strict_eq (JStr "create") (JStr "create")) with true by reflexivity.
  run_handler.
  destruct (assoc "uri" fs); try done. by destruct (Hns s).
Qed.

Lemma on_message_lookup_ignored `{!Builtins} iso now data tokens :
  (∀ r fs, data = Parsed (JObj r fs) →
           strict_eq (assoc "txType" fs) (JStr "create") && truthy (assoc "mint" fs) = false) →
  on_message_lookup iso now data tokens = (Some None, tokens).
Proof.
  intros Hno. unfold on_message_lookup.
  destruct data as [|[]]; try (run_handler; reflexivity).
  specialize (Hno _ _ eq_refl). run_handler.
  destruct (strict_eq (assoc "txType" fields) (JStr "create")); [|reflexivity].
  simpl in Hno. rewrite Hno. reflexivity.
Qed.

(** The three ways a value can stand as [message.uri]. *)
Lemma uri_cases (v : JValue) :
  truthy v = false ∨ (∃ s, v = JStr s) ∨ (truthy v = true ∧ ∀ s, v ≠ JStr s).
Proof.
  destruct v; simpl; eauto; try (right; right; split; [done|discriminate]).
  - destruct b; [right; right; split; [done|discriminate] | by left].
  - destruct (negb _); [right; right; split; [done|discriminate] | by left].
Qed.

(** A message is either ignored or an object that passes the filter. *)
Lemma filter_cases (data : parse_result) :
  (∀ r fs, data = Parsed (JObj r fs) →
           strict_eq (assoc "txType" fs) (JStr "create") && truthy (assoc "mint" fs) = false)
  ∨ ∃ r fs, data = Parsed (JObj r fs)
            ∧ assoc "txType" fs = JStr "create" ∧ truthy (assoc "mint" fs) = true.
Proof.
  destruct data as [|msg]; [left; intros; discriminate|].
  destruct msg as [| | | | |ref elts|r fs]; try (left; intros; discriminate).
  destruct (strict_eq (assoc "txType" fs) (JStr "create")) eqn:Htx;
    [|left; intros ? ? [= <- <-]; by rewrite Htx].
  destruct (truthy (assoc "mint" fs)) eqn:Hmint;
    [|left; intros ? ? [= <- <-]; by rewrite Htx, Hmint].
  right. exists r, fs. by apply strict_eq_str in Htx.
Qed.

Lemma on_message_cases `{!Builtins} iso now data tokens :
  run (on_message iso now data) tokens = tokens
  ∨ ∃ t, run (on_message iso now data) tokens = addToken t tokens.
Proof.
  destruct (filter_cases data) as [Hno | (r & fs & -> & Htx & Hmint)].
  - left. by apply on_message_ignored.
  - destruct (feed_entry iso now fs (uri_locator (assoc "uri" fs))) as [t|] eqn:Ht;
      [|left; by eapply on_message_no_entry].
    destruct (uri_cases (assoc "uri" fs)) as [Hu | [Hu | [Hu Hns]]].
    + right. exists t. apply on_message_entry; auto.
    + right. exists t. apply on_message_entry; auto.
    + left. by apply on_message_throws.
Qed.

Lemma on_message_lookup_cases `{!Builtins} iso now data tokens :
  run (on_message_lookup iso now data) tokens = tokens
  ∨ ∃ t, run (on_message_lookup iso now data) tokens = addToken t tokens.
Proof.
  unfold run.
  destruct (filter_cases data) as [Hno | (r & fs & -> & Htx & Hmint)].
  - left. by rewrite on_message_lookup_ignored.
  - destruct (pump_logo (assoc "mint" fs)) as [l|] eqn:Hl;
      [|left; rewrite on_message_lookup_no_entry; auto].
    destruct (feed_entry iso now fs l) as [t|] eqn:Ht;
      [|left; rewrite on_message_lookup_no_entry; eauto].
    destruct (uri_cases (assoc "uri" fs)) as [Hu | [Hu | [Hu Hns]]].
    + right. exists t. by rewrite (on_message_lookup_entry iso now r fs tokens l t); auto.
    + right. exists t. by rewrite (on_message_lookup_entry iso now r fs tokens l t); auto.
    + left. by rewrite on_message_lookup_throws.
Qed.

(** X1. A message that passes the filter but whose [uri] is truthy and
    not a string makes [.startsWith] throw before the entry is built:
    both revisions of the handler leave the store as it was, and the
    second starts no lookup. *)
Theorem on_message_uri_not_string `{!Builtins}
    (iso : string) (now : Z) (r : nat) (fs : list (string * JValue))
    (tokens : list Token) :
  assoc "txType" fs = JStr "create" →
  truthy (assoc "mint" fs) = true →
  truthy (assoc "uri" fs) = true →
  (∀ s, assoc "uri" fs ≠ JStr s) →
  run (on_message iso now (Parsed (JObj r fs))) tokens = tokens
  ∧ on_message_lookup iso now (Parsed (JObj r fs)) tokens = (Some None, tokens).
Proof.
  intros. split; [by apply on_message_throws | by apply on_message_lookup_throws].
Qed.

Lemma on_message_uri_not_string_witness :
  let fs := [("txType", JStr "create"); ("mint", JStr "ABC"); ("uri", JBool true)] in
  run (@on_message no_conversion "t" 1 (Parsed (JObj 0 fs))) [sample_token] = [sample_token]
  ∧ @on_message_lookup no_conversion "t" 1 (Parsed (JObj 0 fs)) [sample_token]
    = (Some None, [sample_token]).
Proof.
  apply (@on_message_uri_not_string no_conversion "t" 1 0
           [("txType", JStr "create"); ("mint", JStr "ABC"); ("uri", JBool true)]
           [sample_token]); try reflexivity.
  intros s. discriminate.
Defined.

(** ** The invariant of the store *)

Lemma patchImage_cons (id imageUrl : JValue) (x : Token) (l : list Token) :
  patchImage id imageUrl (x :: l)
  = if decide (strict_eq (address x) id)
    then set_logo imageUrl x :: l
    else x :: patchImage id imageUrl l.
Proof.
  unfold patchImage. cbn [list_find]. case_decide; [done|].
  by destruct (list_find _ l) as [[i t]|].
Qed.

(** A property of entries that does not look at [logo] survives a patch. *)
Lemma patchImage_Forall (P : Token → Prop) (id imageUrl : JValue) (l : list Token) :
  (∀ t, P t → P (set_logo imageUrl t)) →
  Forall P l → Forall P (patchImage id imageUrl l).
Proof.
  intros HP. induction 1 as [|x l Hx Hl IH]; [done|].
  rewrite patchImage_cons. case_decide; constructor; auto.
Qed.

Lemma distinct_ids_patchImage (id imageUrl : JValue) (l : list Token) :
  distinct_ids l → distinct_ids (patchImage id imageUrl l).
Proof.
  induction l as [|x l IH]; [done|]. intros [Hx Hl].
  rewrite patchImage_cons. case_decide; [done|].
  split; [|by apply IH]. by apply patchImage_Forall.
Qed.

Lemma patchImage_length (id imageUrl : JValue) (l : list Token) :
  length (patchImage id imageUrl l) = length l.
Proof.
  unfold patchImage. destruct (list_find _ l) as [[i t]|]; [apply length_alter | done].
Qed.

Lemma store_ok_addToken (e : Token) (tokens : list Token) :
  store_ok tokens → store_ok (addToken e tokens).
Proof.
  intros [_ Hd]. split; [apply addToken_length|].
  rewrite addToken_take. apply distinct_ids_take. split.
  - apply Forall_forall. intros y [Hy _]%list_elem_of_filter.
    by rewrite strict_eq_comm.
  - by apply distinct_ids_filter.
Qed.

Lemma store_ok_upserts (es : list Token) (tokens : list Token) :
  store_ok tokens → store_ok (upserts es tokens).
Proof.
  revert tokens. induction es as [|e es IH]; intros tokens Hok; [done|].
  apply IH, store_ok_addToken, Hok.
Qed.

Lemma store_ok_cleanup (now : Z) (tokens : list Token) :
  store_ok tokens → store_ok (cleanupOldTokens now tokens).
Proof.
  intros [Hlen Hd]. split; [|by apply distinct_ids_filter].
  unfold cleanupOldTokens.
  pose proof (length_filter (λ t, now - MAX_AGE_MS < fetchedAt t) tokens). lia.
Qed.

Lemma store_ok_patchImage (id imageUrl : JValue) (tokens : list Token) :
  store_ok tokens → store_ok (patchImage id imageUrl tokens).
Proof.
  intros [Hlen Hd]. split; [by rewrite patchImage_length | by apply distinct_ids_patchImage].
Qed.

(** ** The poller, item by item *)

Lemma for_of_step {A} (body : nat → A → M unit) i item rest tokens :
  run (for_of body i (item :: rest)) tokens
  = match body i item tokens with
    | (Some _, ts') => run (for_of body (S i) rest) ts'
    | (None, ts') => ts'
    end.
Proof.
  unfold run. cbn [for_of]. unfold mbind, M_bind.
  by destruct (body i item tokens) as [[[]|] ts'].
Qed.

(** One turn of the loop: it throws on an item that is [null] or whose
    prices cannot be converted, and upserts the entry of the item
    otherwise. *)
Lemma poll_body_item `{!Builtins} clock i item tokens :
  poll_body clock i item tokens
  = match item with
    | JUndefined | JNull => (None, tokens)
    | _ => match poll_entry (clock i).1 (clock i).2 (item_fields item) with
           | Some t => (Some tt, addToken t tokens)
           | None => (None, tokens)
           end
    end.
Proof.
  unfold poll_body, moralis_token, poll_entry, price_source, cap_source.
  destruct item as [| | | | | |r fs]; try reflexivity.
  cbn [item_fields]. run_handler.
  destruct (ToString (js_or (js_or (assoc "priceUsd" fs) (assoc "price" fs)) (JStr "0")));
    [|reflexivity].
  by destruct (ToString (js_or (js_or (assoc "marketCapUsd" fs) (assoc "marketCap" fs))
                               (JStr "0"))).
Qed.

Lemma poll_body_result `{!Builtins} clock i item :
  (∀ ts, poll_body clock i item ts = (None, ts))
  ∨ ∃ t, ∀ ts, poll_body clock i item ts = (Some tt, addToken t ts).
Proof.
  destruct (poll_entry (clock i).1 (clock i).2 (item_fields item)) as [t|] eqn:Ht.
  - destruct item; try (left; intros ts; by rewrite poll_body_item);
      right; exists t; intros ts; by rewrite poll_body_item, Ht.
  - left. intros ts. rewrite poll_body_item, Ht. by destruct item.
Qed.

Lemma for_of_upserts `{!Builtins} clock items i tokens :
  ∃ es, run (for_of (poll_body clock) i items) tokens = upserts es tokens.
Proof.
  revert i tokens. induction items as [|item items IH]; intros i tokens.
  - by exists [].
  - rewrite for_of_step.
    destruct (poll_body_result clock i item) as [Hthrow | (t & Ht)].
    + rewrite Hthrow. by exists [].
    + rewrite Ht. destruct (IH (S i) (addToken t tokens)) as [es Hes].
      exists (t :: es). exact Hes.
Qed.

Lemma fetchFromMoralis_cases `{!Builtins} clock r tokens :
  run (fetchFromMoralis clock r) tokens = tokens
  ∨ ∃ r1 items,
      run (fetchFromMoralis clock r) tokens
      = run (for_of (poll_body clock) 0%nat (take 30 items)) tokens
      ∧ ∃ r0 fs0, r = Response true (Parsed (JObj r0 fs0))
                  ∧ assoc "result" fs0 = JArr r1 items.
Proof.
  destruct r as [|[] [|data]]; try (left; reflexivity).
  destruct data as [| | | | |? ?|r0 fs0]; try (left; reflexivity).
  destruct (assoc "result" fs0) as [| | | | |r1 items|? ?] eqn:Hres.
  1-5,7: left; unfold fetchFromMoralis; run_handler; rewrite Hres;
         cbn [isArray]; rewrite ?andb_false_r; reflexivity.
  right. exists r1, items. split; [|eauto].
  unfold fetchFromMoralis. run_handler. rewrite Hres. reflexivity.
Qed.

Lemma fetchFromMoralis_upserts `{!Builtins} clock r tokens :
  ∃ es, run (fetchFromMoralis clock r) tokens = upserts es tokens.
Proof.
  destruct (fetchFromMoralis_cases clock r tokens) as [-> | (r1 & items & -> & _)].
  - by exists [].
  - apply for_of_upserts.
Qed.

Lemma on_image_cases (token : Token) (imageUrl : JValue) (tokens : list Token) :
  run (on_image token imageUrl) tokens
  = if truthy imageUrl then patchImage (address token) imageUrl tokens else tokens.
Proof. unfold on_image. by destruct (truthy imageUrl). Qed.

(** The query sweeps whether or not it goes on to answer. *)
Lemma get_pulse_tokens_store `{!Builtins} now limit c tokens :
  run (get_pulse_tokens now limit c) tokens = cleanupOldTokens now tokens.
Proof.
  unfold get_pulse_tokens. run_handler. by destruct (query_limit limit).
Qed.

Lemma perform_ok `{!Builtins} (a : Activity) (tokens : list Token) :
  store_ok tokens → store_ok (perform a tokens).
Proof.
  intros Hok. destruct a as [iso now data|iso now data|token r|clock r|now limit c|c|now];
    cbn [perform].
  - destruct (on_message_cases iso now data tokens) as [-> | [t ->]];
      [done | by apply store_ok_addToken].
  - destruct (on_message_lookup_cases iso now data tokens) as [-> | [t ->]];
      [done | by apply store_ok_addToken].
  - rewrite on_image_cases. destruct (truthy _); [by apply store_ok_patchImage | done].
  - destruct (fetchFromMoralis_upserts clock r tokens) as [es ->].
    by apply store_ok_upserts.
  - rewrite get_pulse_tokens_store. by apply store_ok_cleanup.
  - done.
  - by apply store_ok_cleanup.
Qed.

(** X2. Whatever the feed sends, the polls return, the lookups answer
    and the clients ask, in whatever order, the store never holds more
    than [MAX_TOKENS] entries and never two entries that [===] finds
    under the same id. *)
Theorem service_store_ok `{!Builtins} (acts : list Activity) :
  (length (service acts) ≤ MAX_TOKENS)%nat ∧ distinct_ids (service acts).
Proof.
  change (store_ok (service acts)). unfold service.
  induction acts as [|a acts IH] using rev_ind;
    [split; [unfold MAX_TOKENS; simpl; lia | exact I]|].
  rewrite foldl_snoc. by apply perform_ok.
Qed.

(** ** Polls *)

Lemma for_of_poll_entries `{!Builtins} clock items i tokens :
  run (for_of (poll_body clock) i items) tokens
  = upserts (poll_entries clock i items) tokens.
Proof.
  revert i tokens. induction items as [|item items IH]; intros i tokens; [done|].
  rewrite for_of_step, poll_body_item. cbn [poll_entries].
  destruct item; try done;
    (destruct (poll_entry _ _ _); [apply IH | done]).
Qed.

Lemma fetchFromMoralis_completes `{!Builtins} clock r tokens :
  fetchFromMoralis clock r tokens = (Some tt, run (fetchFromMoralis clock r) tokens).
Proof.
  unfold run, fetchFromMoralis, try_catch. cbn [fst snd]. f_equal.
  by destruct (default _ _).
Qed.

(** X3. A poll whose request fails, whose status is not a success,
    whose body is not JSON, or whose body has no array under [result]
    completes without touching the store. *)
Theorem fetchFromMoralis_failure `{!Builtins}
    (clock : nat → string * Z) (r : fetch_result) (tokens : list Token) :
  r = NetworkError
  ∨ (∃ body, r = Response false body)
  ∨ r = Response true SyntaxError
  ∨ (∃ data, r = Response true (Parsed data)
             ∧ ∀ r1 items, Get data "result" ≠ Some (JArr r1 items)) →
  fetchFromMoralis clock r tokens = (Some tt, tokens).
Proof.
  intros Hfail.
  assert (Hrun : run (fetchFromMoralis clock r) tokens = tokens).
  { destruct (fetchFromMoralis_cases clock r tokens)
      as [Hsame | (r1 & items & _ & r0 & fs0 & -> & Hres)]; [done|].
    destruct Hfail as [?|[[body ?]|[?|(data & [= <-] & Hno)]]]; try discriminate.
    destruct (Hno r1 items). simpl. by rewrite Hres. }
  by rewrite fetchFromMoralis_completes, Hrun.
Qed.

Lemma fetchFromMoralis_failure_witness :
  @fetchFromMoralis no_conversion (λ _, ("t", 1)) (Response false SyntaxError)
    [sample_token] = (Some tt, [sample_token]).
Proof.
  apply (@fetchFromMoralis_failure no_conversion). right; left. by eexists.
Defined.

Lemma fetchFromMoralis_entries `{!Builtins} clock r0 r1 fs0 items tokens :
  assoc "result" fs0 = JArr r1 items →
  run (fetchFromMoralis clock (Response true (Parsed (JObj r0 fs0)))) tokens
  = upserts (poll_entries clock 0 (take 30 items)) tokens.
Proof.
  intros Hres.
  pose proof (fetchFromMoralis_objects clock r0 fs0 r1 items tokens Hres) as Hrun.
  change (run (fetchFromMoralis clock (Response true (Parsed (JObj r0 fs0)))) tokens
          = run (for_of (poll_body clock) 0%nat (take 30 items)) tokens) in Hrun.
  by rewrite for_of_poll_entries in Hrun.
Qed.

(** X4. A poll that gets an array upserts one entry per item, in the
    order of the array and with the clock readings of its turn, for the
    first 30 items at most; an item that is [null], or whose price or
    market cap cannot be converted to a string, ends the batch, the
    entries upserted before it staying in the store. *)
Theorem fetchFromMoralis_is_upserts `{!Builtins}
    (clock : nat → string * Z) (r0 r1 : nat) (fs0 : list (string * JValue))
    (items : list JValue) (tokens : list Token) :
  assoc "result" fs0 = JArr r1 items →
  fetchFromMoralis clock (Response true (Parsed (JObj r0 fs0))) tokens
  = (Some tt, upserts (poll_entries clock 0 (take 30 items)) tokens).
Proof.
  intros Hres.
  by rewrite fetchFromMoralis_completes, (fetchFromMoralis_entries _ _ _ _ _ _ Hres).
Qed.

Lemma fetchFromMoralis_is_upserts_witness :
  @fetchFromMoralis no_conversion (λ i, ("t", Z.of_nat i))
    (Response true (Parsed idless_batch)) [sample_token]
  = (Some tt,
     upserts (@poll_entries no_conversion (λ i, ("t", Z.of_nat i)) 0
                [JObj 3 [("symbol", JStr "X")]; JObj 4 [("symbol", JStr "Y")]])
             [sample_token]).
Proof.
  exact (@fetchFromMoralis_is_upserts no_conversion (λ i, ("t", Z.of_nat i)) 1 2
           [("result", JArr 2 [JObj 3 [("symbol", JStr "X")];
                               JObj 4 [("symbol", JStr "Y")]])]
           [JObj 3 [("symbol", JStr "X")]; JObj 4 [("symbol", JStr "Y")]]
           [sample_token] eq_refl).
Defined.

(** ** The metadata lookup *)

Lemma same_but_logo_diag (l : list Token) : Forall2 same_but_logo l l.
Proof. induction l; constructor; auto using same_but_logo_refl. Qed.

Lemma fetchImageFromMetadata_image (ok : bool) (ref : nat)
    (fs : list (string * JValue)) (s : string) :
  assoc "image" fs = JStr s → s ≠ "" →
  fetchImageFromMetadata (Response true (Parsed (JObj ref fs)))
  = if startsWith s "ipfs://"
    then JStr (IPFS_GATEWAY ++ drop_chars 7 s)%string
    else JStr s.
Proof.
  intros Hs Hne. unfold fetchImageFromMetadata. simpl. rewrite Hs. simpl.
  destruct (String.eqb_spec s ""); [done|]. simpl.
  destruct (startsWith s "ipfs://") eqn:Hp; [|done].
  simpl. by rewrite replace_prefix.
Qed.

(** X5. [fetchImageFromMetadata] answers [undefined] or a non-empty
    string, whatever the response. It answers [undefined] when the
    request fails, the status is not a success, the body is not JSON or
    carries no non-empty string under [image]; otherwise it answers the
    gateway URL of an [image] that starts with ["ipfs://"], and any
    other [image] as it is. *)
Theorem fetchImageFromMetadata_answer (r : fetch_result) :
  (fetchImageFromMetadata r = JUndefined
   ∨ ∃ s, fetchImageFromMetadata r = JStr s ∧ s ≠ "")
  ∧ (r = NetworkError
     ∨ (∃ body, r = Response false body)
     ∨ r = Response true SyntaxError
     ∨ (∃ data, r = Response true (Parsed data)
                ∧ ∀ s, s ≠ "" → Get data "image" ≠ Some (JStr s)) →
     fetchImageFromMetadata r = JUndefined)
  ∧ (∀ ref fs s, r = Response true (Parsed (JObj ref fs)) →
       assoc "image" fs = JStr s → s ≠ "" →
       fetchImageFromMetadata r
       = if startsWith s "ipfs://"
         then JStr (IPFS_GATEWAY ++ drop_chars 7 s)%string
         else JStr s).
Proof.
  assert (Hshape : ∀ data,
    (∀ s, s ≠ "" → Get data "image" ≠ Some (JStr s)) →
    fetchImageFromMetadata (Response true (Parsed data)) = JUndefined).
  { intros data Hno. unfold fetchImageFromMetadata. simpl.
    destruct (Get data "image") as [image|] eqn:Hget; [|done]. simpl.
    destruct image; try done; try (by destruct (truthy _)).
    simpl. destruct (String.eqb_spec s ""); [done|]. by destruct (Hno s). }
  split; [|split].
  - destruct r as [|[] [|data]]; try (by left).
    destruct (Get data "image") as [image|] eqn:Hget;
      [|left; apply Hshape; intros s _; by rewrite Hget].
    destruct image as [| | | |s| |];
      try (left; apply Hshape; intros s' _; rewrite Hget; discriminate).
    destruct (String.eqb_spec s "") as [->|Hne];
      [left; apply Hshape; intros s' Hs'; rewrite Hget; congruence|].
    right. destruct data; try discriminate. injection Hget as Hget.
    rewrite (fetchImageFromMetadata_image true _ _ s Hget Hne).
    destruct (startsWith s "ipfs://"); eexists; (split; [reflexivity|]); [done|done].
  - intros [->|[[body ->]|[->|(data & -> & Hno)]]]; try done. by apply Hshape.
  - intros ref fs s -> Hs Hne. by apply (fetchImageFromMetadata_image true).
Qed.

Lemma fetchImageFromMetadata_answer_witness :
  fetchImageFromMetadata (Response true (Parsed (JObj 0 [("image", JStr "ipfs://q")])))
  = JStr "https://ipfs.io/ipfs/q".
Proof.
  destruct (fetchImageFromMetadata_answer
              (Response true (Parsed (JObj 0 [("image", JStr "ipfs://q")]))))
    as (_ & _ & Himage).
  apply (Himage 0%nat [("image", JStr "ipfs://q")] "ipfs://q" eq_refl eq_refl).
  discriminate.
Defined.

Lemma patchImage_same_but_logo (id imageUrl : JValue) (l : list Token) :
  Forall2 same_but_logo l (patchImage id imageUrl l).
Proof.
  induction l as [|x l IH]; [constructor|].
  rewrite patchImage_cons. case_decide; constructor;
    auto using set_logo_same_but_logo, same_but_logo_refl, same_but_logo_diag.
Qed.

(** X6. When the answer of a metadata lookup reaches the store, every
    entry keeps its place and all its fields but [logo]; and when the
    lookup failed (no response, a status that is not a success, a body
    that is not JSON) the store is left as it was. *)
Theorem on_image_after_lookup (token : Token) (r : fetch_result) (tokens : list Token) :
  Forall2 same_but_logo tokens (run (on_image token (fetchImageFromMetadata r)) tokens)
  ∧ (r = NetworkError ∨ (∃ body, r = Response false body) ∨ r = Response true SyntaxError →
     on_image token (fetchImageFromMetadata r) tokens = (Some tt, tokens)).
Proof.
  split.
  - rewrite on_image_cases. destruct (truthy _);
      [apply patchImage_same_but_logo | apply same_but_logo_diag].
  - by intros [-> | [[body ->] | ->]].
Qed.

Lemma on_image_after_lookup_witness :
  on_image sample_token (fetchImageFromMetadata NetworkError) [sample_token]
  = (Some tt, [sample_token]).
Proof.
  apply (proj2 (on_image_after_lookup sample_token NetworkError [sample_token])).
  by left.
Defined.

(** ** The two revisions of the feed handler *)

Lemma set_logo_same_but_logo' (l : JValue) (t : Token) : same_but_logo (set_logo l t) t.
Proof. by repeat split. Qed.

(** X7. On every frame the two revisions of the feed handler leave
    stores that agree entry by entry on everything but [logo], with one
    exception: when [mint] cannot be converted to a string the second
    revision throws in the template literal of its logo and stores
    nothing. The second revision gives its entry the image endpoint of
    the mint as [logo]; and when it starts a lookup, the entry it hands
    over is the one at the front of the store and the URL it looks up is
    the [logo] the first revision stores. *)
Theorem feed_revisions_agree `{!Builtins}
    (iso : string) (now : Z) (data : parse_result) (tokens : list Token) :
  (Forall2 same_but_logo (run (on_message iso now data) tokens)
                         (run (on_message_lookup iso now data) tokens)
   ∨ (run (on_message_lookup iso now data) tokens = tokens
      ∧ ∃ r fs, data = Parsed (JObj r fs) ∧ ToString (assoc "mint" fs) = None))
  ∧ ∀ url t, (on_message_lookup iso now data tokens).1 = Some (Some (url, t)) →
      head (run (on_message_lookup iso now data) tokens) = Some t
      ∧ pump_logo (address t) = Some (logo t)
      ∧ logo <$> head (run (on_message iso now data) tokens) = Some (JStr url).
Proof.
  destruct (filter_cases data) as [Hno | (r & fs & -> & Htx & Hmint)].
  { rewrite on_message_ignored by done. unfold run.
    rewrite on_message_lookup_ignored by done.
    split; [left; apply same_but_logo_diag | discriminate]. }
  destruct (uri_cases (assoc "uri" fs)) as [Hu | [Hu | [Hu Hns]]].
  3: { rewrite on_message_throws by done. unfold run.
       rewrite on_message_lookup_throws by done.
       split; [left; apply same_but_logo_diag | discriminate]. }
  all: assert (Huri : truthy (assoc "uri" fs) = false ∨ ∃ s, assoc "uri" fs = JStr s)
    by auto; clear Hu.
  all: destruct (pump_logo (assoc "mint" fs)) as [l|] eqn:Hl.
  2,4: unfold run; rewrite on_message_lookup_no_entry by auto;
    (split; [|discriminate]); right; (split; [done|]); exists r, fs; (split; [done|]);
    unfold pump_logo in Hl; by destruct (ToString (assoc "mint" fs)).
  all: destruct (feed_entry iso now fs l) as [t2|] eqn:Ht2.
  2,4: rewrite (on_message_no_entry iso now r fs tokens l) by done; unfold run;
    rewrite on_message_lookup_no_entry by eauto;
    (split; [left; apply same_but_logo_diag | discriminate]).
  all: rewrite (on_message_entry iso now r fs tokens
                  (set_logo (uri_locator (assoc "uri" fs)) t2))
         by eauto using feed_entry_logo;
    unfold run; rewrite (on_message_lookup_entry iso now r fs tokens l t2) by done;
    cbn [fst snd]; rewrite !addToken_cons.
  all: split;
    [left; constructor; [apply set_logo_same_but_logo' | apply same_but_logo_diag]|].
  all: intros url t Hstart; injection Hstart as Hstart;
    destruct (logs t2); [|discriminate];
    destruct (uri_locator (assoc "uri" fs)) eqn:Hloc; try discriminate;
    injection Hstart as <- <-.
  all: apply feed_entry_Some in Ht2 as (cap & progress & _ & _ & ->).
  all: repeat split; done.
Qed.

Lemma feed_revisions_agree_witness :
  ∃ t,
    head (run (@on_message_lookup no_conversion "t" 1
                 (Parsed (uri_message "ipfs://abc123"))) []) = Some t
    ∧ logo <$> head (run (@on_message no_conversion "t" 1
                            (Parsed (uri_message "ipfs://abc123"))) [])
      = Some (JStr "https://ipfs.io/ipfs/abc123").
Proof.
  eexists.
  destruct (@feed_revisions_agree no_conversion "t" 1
              (Parsed (uri_message "ipfs://abc123")) []) as [_ Hstart].
  destruct (Hstart "https://ipfs.io/ipfs/abc123" _ eq_refl) as (Hhead & _ & Hlogo).
  split; [exact Hhead | exact Hlogo].
Defined.

(** ** Sweeps and queries *)

Lemma cleanupOldTokens_later (now1 now2 : Z) (tokens : list Token) :
  now1 <= now2 →
  cleanupOldTokens now2 (cleanupOldTokens now1 tokens) = cleanupOldTokens now2 tokens.
Proof.
  intros Hle. unfold cleanupOldTokens. apply list_filter_filter_l. intros t. lia.
Qed.

(** X8. Sweeps compose: a sweep following an earlier sweep leaves what
    it would have left alone, and a sweep at an instant already swept
    changes nothing. *)
Theorem cleanupOldTokens_compose (now1 now2 : Z) (tokens : list Token) :
  now1 <= now2 →
  cleanupOldTokens now2 (cleanupOldTokens now1 tokens) = cleanupOldTokens now2 tokens
  ∧ cleanupOldTokens now1 (cleanupOldTokens now2 tokens) = cleanupOldTokens now2 tokens.
Proof.
  intros Hle. split; [by apply cleanupOldTokens_later|].
  unfold cleanupOldTokens. apply list_filter_filter_r. intros t. lia.
Qed.

Lemma cleanupOldTokens_compose_witness :
  cleanupOldTokens 2 (cleanupOldTokens 1 [sample_token]) = cleanupOldTokens 2 [sample_token].
Proof.
  apply (cleanupOldTokens_compose 1 2 [sample_token]). lia.
Defined.

Lemma cleanupOldTokens_fresh (now : Z) (tokens : list Token) :
  Forall (fresh now) (cleanupOldTokens now tokens).
Proof.
  apply Forall_forall. intros t Ht. by apply list_elem_of_filter in Ht as [? _].
Qed.

Lemma slice0_length {A} (l : list A) (q : Z) : (length (slice0 l q) ≤ length l)%nat.
Proof. unfold slice0. rewrite length_take. lia. Qed.

Lemma get_pulse_tokens_throws `{!Builtins} now limit c tokens :
  ToString limit = None →
  get_pulse_tokens now limit c tokens = (None, cleanupOldTokens now tokens).
Proof.
  intros Hs. unfold get_pulse_tokens, query_limit. rewrite Hs. reflexivity.
Qed.

(** X9. A recency query sweeps and then answers, unless the [limit]
    cannot be converted to a string, in which case it throws after the
    sweep. Either way only entries fetched less than [MAX_AGE_MS] before
    [now] are left in the store. When it answers, it returns only such
    entries and reports a count that is the size of the store it leaves;
    it returns at most 100 entries when the limit does not read as a
    negative integer, and at most as many as the store held in any case. *)
Theorem get_pulse_tokens_fresh `{!Builtins}
    (now : Z) (limit : JValue) (c : Connector) (tokens : list Token) :
  let out := get_pulse_tokens now limit c tokens in
  Forall (fresh now) out.2
  ∧ (is_Some (ToString limit) → is_Some out.1)
  ∧ ∀ resp, out.1 = Some resp →
      Forall (fresh now) (resp_tokens resp)
      ∧ resp_count resp = length out.2
      ∧ (length (resp_tokens resp) ≤ length tokens)%nat
      ∧ ((∀ s k, ToString limit = Some s → parseInt s = Some k → 0 <= k) →
         (length (resp_tokens resp) ≤ 100)%nat).
Proof.
  intros out. subst out.
  pose proof (cleanupOldTokens_fresh now tokens) as Hfresh.
  destruct (ToString limit) as [s|] eqn:Hs.
  2: { rewrite get_pulse_tokens_throws by done. cbn [fst snd].
       split; [done|]. split; [by intros [? ?] | discriminate]. }
  rewrite (get_pulse_tokens_run now limit c tokens s Hs). cbn [fst snd].
  split; [done|]. split; [by eexists|].
  intros resp [= <-]. cbn [resp_tokens resp_count].
  split; [|split; [done|split]].
  - eapply Forall_forall. intros t Ht.
    apply (proj1 (Forall_forall _ _) Hfresh).
    eapply elem_of_prefix; [exact Ht | apply slice0_prefix].
  - etrans; [apply slice0_length|]. unfold cleanupOldTokens. apply length_filter.
  - intros Hk.
    assert (Hq : 0 <= match parseInt s with
                      | Some k => if k =? 0 then 50 else k
                      | None => 50
                      end).
    { destruct (parseInt s) as [k|] eqn:Hp; [|lia].
      specialize (Hk s k eq_refl Hp). destruct (k =? 0); lia. }
    rewrite slice0_nonneg by lia. rewrite length_take. lia.
Qed.

Lemma get_pulse_tokens_fresh_witness :
  ∃ resp,
    (@get_pulse_tokens no_conversion 1 (JStr "200") sample_connector [sample_token]).1
    = Some resp
    ∧ (length (resp_tokens resp) ≤ 100)%nat.
Proof.
  destruct (@get_pulse_tokens_fresh no_conversion 1 (JStr "200") sample_connector
              [sample_token]) as (_ & _ & Hresp).
  eexists. split; [reflexivity|].
  apply Hresp; [reflexivity|].
  intros s k [= <-] Hk. vm_compute in Hk. injection Hk as <-. lia.
Defined.

(** X10. A limit that reads as a negative integer [k] is handed to
    [slice] as it is: the query returns the entries kept by the sweep
    but the last [-k]. *)
Theorem get_pulse_tokens_negative_limit `{!Builtins}
    (now : Z) (limit : JValue) (c : Connector) (tokens : list Token)
    (s : string) (k : Z) :
  ToString limit = Some s → parseInt s = Some k → k < 0 →
  resp_tokens <$> (get_pulse_tokens now limit c tokens).1
  = Some (take (length (cleanupOldTokens now tokens) - Z.to_nat (- k))
               (cleanupOldTokens now tokens)).
Proof.
  intros Hs Hk Hneg. rewrite (get_pulse_tokens_run now limit c tokens s Hs).
  cbn [fst fmap option_fmap option_map resp_tokens]. f_equal.
  rewrite Hk.
  destruct (Z.eqb_spec k 0); [lia|]. rewrite Z.min_l by lia.
  unfold slice0. destruct (Z.ltb_spec k 0); [|lia]. f_equal. lia.
Qed.

Lemma get_pulse_tokens_negative_limit_witness :
  resp_tokens <$> (@get_pulse_tokens no_conversion 1 (JStr "-1") sample_connector
                     [sample_token; sample_token]).1
  = Some [sample_token].
Proof.
  apply (@get_pulse_tokens_negative_limit no_conversion 1 (JStr "-1") sample_connector
           [sample_token; sample_token] "-1" (-1)); [reflexivity | reflexivity | lia].
Defined.

(** X11. The health route does not sweep: it leaves the store as it is
    and counts every entry in it, so its count is never below the count
    a recency query reports from the same store; asked after the query,
    it reports the query's count. *)
Theorem get_health_counts `{!Builtins}
    (now : Z) (limit : JValue) (c : Connector) (tokens : list Token) :
  ∃ h h',
    get_health c tokens = (Some h, tokens)
    ∧ health_tokenCount h = length tokens
    ∧ (get_health c (run (get_pulse_tokens now limit c) tokens)).1 = Some h'
    ∧ (health_tokenCount h' ≤ health_tokenCount h)%nat
    ∧ ∀ p, (get_pulse_tokens now limit c tokens).1 = Some p →
        (resp_count p ≤ health_tokenCount h)%nat
        ∧ health_tokenCount h' = resp_count p
        ∧ health_wsConnected h = resp_wsConnected p.
Proof.
  eexists _, _. split; [reflexivity|]. split; [reflexivity|].
  split; [reflexivity|]. cbn [health_tokenCount health_wsConnected].
  rewrite get_pulse_tokens_store.
  assert (Hle : (length (cleanupOldTokens now tokens) ≤ length tokens)%nat)
    by (unfold cleanupOldTokens; apply length_filter).
  split; [done|]. intros p Hp.
  destruct (ToString limit) as [s|] eqn:Hs.
  - rewrite (get_pulse_tokens_run now limit c tokens s Hs) in Hp.
    injection Hp as <-. by repeat split.
  - by rewrite get_pulse_tokens_throws in Hp.
Qed.

Lemma get_health_counts_witness :
  ∃ h p,
    (@get_health sample_connector [sample_token]).1 = Some h
    ∧ (@get_pulse_tokens no_conversion MAX_AGE_MS JUndefined sample_connector
         [sample_token]).1 = Some p
    ∧ (resp_count p ≤ health_tokenCount h)%nat.
Proof.
  destruct (@get_health_counts no_conversion MAX_AGE_MS JUndefined sample_connector
              [sample_token]) as (h & h' & Hh & _ & _ & _ & Hp).
  exists h. eexists. rewrite Hh. split; [reflexivity|]. split; [reflexivity|].
  apply Hp. reflexivity.
Defined.

(** ** The connection, event by event *)

Lemma conn_step_ok (ev : ConnEvent) (c : Connector) :
  conn_ok c →
  conn_ok (conn_step ev c).1 ∧ Forall effect_ok (conn_step ev c).2.
Proof.
  unfold conn_ok, effect_ok, MAX_RECONNECT_ATTEMPTS. intros Hc.
  destruct ev; cbn [conn_step].
  - unfold on_open. cbn [fst snd reconnectAttempts]. split; [lia|].
    destruct (ws c); [apply Forall_cons; split; [by left | constructor] | constructor].
  - unfold on_close, MAX_RECONNECT_ATTEMPTS.
    destruct (Z.ltb_spec (reconnectAttempts c) 10); cbn [fst snd reconnectAttempts];
      (split; [lia|]);
      [apply Forall_cons; split; [by right | constructor] | constructor].
  - cbn. split; [done | constructor].
  - cbn. split; [done | constructor].
Qed.

Lemma conn_run_ok (evs : list ConnEvent) (c : Connector) :
  conn_ok c → conn_ok (conn_run evs c).1 ∧ Forall effect_ok (conn_run evs c).2.
Proof.
  revert c. induction evs as [|ev evs IH]; intros c Hc; [by split|].
  cbn [conn_run].
  destruct (conn_step_ok ev c Hc) as (Hc1 & Hfx).
  destruct (conn_step ev c) as [c1 fx]. cbn [fst snd] in *.
  destruct (IH c1 Hc1) as [Hc2 Hfx'].
  destruct (conn_run evs c1) as [c2 fx']. cbn [fst snd] in *.
  split; [done | by apply Forall_app].
Qed.

Lemma conn_run_snoc (evs : list ConnEvent) (ev : ConnEvent) (c : Connector) :
  (conn_run (evs ++ [ev]) c).1 = (conn_step ev (conn_run evs c).1).1.
Proof.
  revert c. induction evs as [|e evs IH]; intros c.
  - cbn. by destruct (conn_step ev c).
  - cbn [conn_run app]. destruct (conn_step e c) as [c1 fx].
    specialize (IH c1). destruct (conn_run (evs ++ [ev]) c1).
    destruct (conn_run evs c1). exact IH.
Qed.

Lemma conn_run_connected (evs : list ConnEvent) (c : Connector) :
  wsConnected c = false →
  wsConnected (conn_run evs c).1 = true →
  ∃ before after, evs = before ++ Opened :: after ∧ Forall (λ ev, ev = Errored) after.
Proof.
  intros Hc. induction evs as [|ev evs IH] using rev_ind; [cbn; congruence|].
  rewrite conn_run_snoc. destruct ev; cbn [conn_step].
  - intros _. exists evs, []. by split.
  - unfold on_close. by destruct (_ <? _).
  - cbn. intros Hconn. destruct (IH Hconn) as (before & after & -> & Hafter).
    exists before, (after ++ [Errored]). split; [by rewrite <- app_assoc|].
    apply Forall_app. split; [done | by constructor].
  - discriminate.
Qed.

(** X12. Whatever the socket and the timer do, in whatever order, from
    the start of the server: the retry counter stays between 0 and 10,
    the handlers only ever send the subscription or set a timer of
    5000 ms, and the connector reports itself connected only when an
    [open] has been followed by nothing but [error] events. *)
Theorem conn_run_invariant (evs : list ConnEvent) :
  let out := conn_run evs initial_connector in
  0 <= reconnectAttempts out.1 <= 10
  ∧ Forall (λ fx, fx = Send "subscribeNewToken" ∨ fx = SetTimeout 5000) out.2
  ∧ (wsConnected out.1 = true →
     ∃ before after, evs = before ++ Opened :: after ∧ Forall (λ ev, ev = Errored) after).
Proof.
  intros out. subst out.
  destruct (conn_run_ok evs initial_connector) as [Hc Hfx];
    [unfold conn_ok, MAX_RECONNECT_ATTEMPTS; simpl; lia|].
  split; [exact Hc|]. split; [exact Hfx|].
  by apply conn_run_connected.
Qed.

Lemma conn_run_invariant_witness :
  ∃ before after,
    [TimerFired; Opened; Errored] = before ++ Opened :: after
    ∧ Forall (λ ev, ev = Errored) after.
Proof.
  destruct (conn_run_invariant [TimerFired; Opened; Errored]) as (_ & _ & Hconn).
  apply Hconn. reflexivity.
Defined.

(** X13. An [open] gives the whole budget back: whatever happened
    before it, the [n] closes that follow it schedule [min n 10]
    reconnections; and a close always leaves the connector reporting
    itself disconnected. *)
Theorem on_open_restores_budget (c : Connector) (n : nat) :
  (closes n (on_open c).1).2 = replicate (n `min` 10) (SetTimeout 5000)
  ∧ wsConnected (on_close c).1 = false.
Proof.
  split.
  - rewrite closes_effects by (unfold MAX_RECONNECT_ATTEMPTS; cbn; lia). done.
  - unfold on_close. by destruct (_ <? _).
Qed.

(** ** Lookups, patches and upserts together *)

(** X14. The second revision stores the entry of an accepted message
    before it writes its log line, and starts the lookup of the
    metadata URL after it: the lookup is started only when the log line
    completes, that is when [symbol] converts to a string and [mint] is
    a string, or an array whose first 8 elements convert. When the log
    line throws the entry is stored all the same but no lookup is
    started. *)
Theorem on_message_lookup_started `{!Builtins}
    (iso : string) (now : Z) (r : nat) (fs : list (string * JValue))
    (tokens : list Token) (u : string) (l : JValue) (token : Token) :
  assoc "txType" fs = JStr "create" →
  truthy (assoc "mint" fs) = true →
  assoc "uri" fs = JStr u → u ≠ "" →
  pump_logo (assoc "mint" fs) = Some l →
  feed_entry iso now fs l = Some token →
  ∃ url,
    uri_locator (JStr u) = JStr url
    ∧ on_message_lookup iso now (Parsed (JObj r fs)) tokens
      = (Some (if logs token then Some (url, token) else None),
         addToken token tokens).
Proof.
  intros Htx Hmint Hu Hne Hl Htoken.
  rewrite (on_message_lookup_entry iso now r fs tokens l token) by eauto. rewrite Hu.
  assert (Ht : truthy (JStr u) = true).
  { simpl. by destruct (String.eqb_spec u ""). }
  unfold uri_locator. rewrite Ht.
  destruct (startsWith u "ipfs://"); [by eexists|].
  destruct (startsWith u "http"); by eexists.
Qed.

Lemma on_message_lookup_started_witness :
  ∃ token,
    @on_message_lookup no_conversion "t" 1
      (Parsed (JObj 0 [("txType", JStr "create"); ("mint", JBool true);
                       ("uri", JStr "http://m")])) []
    = (Some None, [token]).
Proof.
  destruct (@on_message_lookup_started no_conversion "t" 1 0
              [("txType", JStr "create"); ("mint", JBool true); ("uri", JStr "http://m")]
              [] "http://m" _ _ eq_refl eq_refl eq_refl ltac:(discriminate)
              eq_refl eq_refl)
    as (url & _ & Hrun).
  eexists. exact Hrun.
Defined.

Lemma patchImage_head (id imageUrl : JValue) (x : Token) (l : list Token) :
  strict_eq (address x) id →
  patchImage id imageUrl (x :: l) = set_logo imageUrl x :: l.
Proof. intros Hid. rewrite patchImage_cons. by rewrite decide_True. Qed.

(** X15. Of two patches under one id the second wins: the store is the
    one the second patch alone would leave. *)
Theorem patchImage_last_wins (id a b : JValue) (tokens : list Token) :
  patchImage id b (patchImage id a tokens) = patchImage id b tokens.
Proof.
  induction tokens as [|x l IH]; [done|].
  rewrite (patchImage_cons id a). case_decide as Hid.
  - rewrite !patchImage_head by done. done.
  - rewrite !patchImage_cons. rewrite !decide_False by done. by rewrite IH.
Qed.

(** X16. Patching the image of an entry that has just been upserted
    gives the store that upserting the patched entry would have given:
    the patch finds the entry at the front. The id must be equal to
    itself, which every id but [NaN] is. *)
Theorem patchImage_after_addToken (e : Token) (imageUrl : JValue) (tokens : list Token) :
  strict_eq (address e) (address e) →
  patchImage (address e) imageUrl (addToken e tokens)
  = addToken (set_logo imageUrl e) tokens.
Proof.
  intros Hid. rewrite !addToken_cons. by rewrite patchImage_head.
Qed.

Lemma patchImage_after_addToken_witness :
  patchImage (JStr "ABC") (JStr "img") (addToken sample_token [])
  = addToken (set_logo (JStr "img") sample_token) [].
Proof. apply (patchImage_after_addToken sample_token (JStr "img") []). exact I. Defined.

Lemma limit_pos (p : option Z) :
  (∀ k, p = Some k → 0 <= k) →
  1 <= Z.min (match p with Some k => if k =? 0 then 50 else k | None => 50 end) 100.
Proof.
  intros Hk. destruct p as [k|]; [|lia].
  specialize (Hk k eq_refl). destruct (Z.eqb_spec k 0); lia.
Qed.

(** X17. An entry the feed handler stores is the first entry of every
    recency query made less than [MAX_AGE_MS] after it was fetched, as
    long as no other upsert came in between and the limit converts to a
    string that does not read as a negative integer. *)
Theorem ingested_entry_is_served `{!Builtins}
    (iso : string) (now q : Z) (r : nat) (fs : list (string * JValue))
    (limit : JValue) (c : Connector) (tokens : list Token)
    (t : Token) (s : string) :
  assoc "txType" fs = JStr "create" →
  truthy (assoc "mint" fs) = true →
  (truthy (assoc "uri" fs) = false ∨ ∃ s, assoc "uri" fs = JStr s) →
  feed_entry iso now fs (uri_locator (assoc "uri" fs)) = Some t →
  q - MAX_AGE_MS < now →
  ToString limit = Some s →
  (∀ k, parseInt s = Some k → 0 <= k) →
  ∃ resp,
    (get_pulse_tokens q limit c
       (run (on_message iso now (Parsed (JObj r fs))) tokens)).1 = Some resp
    ∧ head (resp_tokens resp) = Some t.
Proof.
  intros Htx Hmint Huri Ht Hfresh Hs Hk.
  rewrite (on_message_entry iso now r fs tokens t) by done. rewrite addToken_cons.
  rewrite (get_pulse_tokens_run q limit c _ s Hs).
  eexists. split; [reflexivity|]. cbn [resp_tokens].
  pose proof (limit_pos (parseInt s) Hk) as Hq.
  rewrite slice0_nonneg by lia.
  unfold cleanupOldTokens. rewrite filter_cons_True.
  - destruct (Z.to_nat _) as [|n] eqn:Hn; [lia|]. done.
  - apply feed_entry_Some in Ht as (cap & progress & _ & _ & ->). exact Hfresh.
Qed.

Lemma ingested_entry_is_served_witness :
  ∃ resp,
    (@get_pulse_tokens no_conversion 2 JUndefined sample_connector
       (run (@on_message no_conversion "t" 1 (Parsed create_message)) [])).1 = Some resp
    ∧ symbol <$> head (resp_tokens resp) = Some (JStr "FOO").
Proof.
  destruct (@ingested_entry_is_served no_conversion "t" 1 2 0
              [("txType", JStr "create"); ("mint", JStr "ABC"); ("symbol", JStr "FOO");
               ("marketCapSol", JNum (num_of_Z 10));
               ("vSolInBondingCurve", JNum num_42_5)]
              JUndefined sample_connector [] _ "undefined"
              eq_refl eq_refl (or_introl eq_refl) eq_refl eq_refl eq_refl)
    as (resp & Hrun & Hhead).
  - intros k Hk. vm_compute in Hk. discriminate.
  - exists resp. split; [exact Hrun|]. by rewrite Hhead.
Defined.

(** X18. The feed and the poller write through the same [addToken]: an
    item polled under the address of an entry of the feed takes its
    place, and a message of the feed under the address of a polled entry
    takes its place; either way one entry is left under that address,
    the later one. Both writers must get as far as [addToken]: the
    numeric fields of the message and the prices of the item convert. *)
Theorem last_writer_wins `{!Builtins}
    (iso : string) (now : Z) (clock : nat → string * Z) (r r0 r1 ri : nat)
    (fs fs0 fi : list (string * JValue)) (a : string) (tokens : list Token)
    (fed polled : Token) :
  assoc "txType" fs = JStr "create" →
  assoc "mint" fs = JStr a → a ≠ "" →
  (truthy (assoc "uri" fs) = false ∨ ∃ s, assoc "uri" fs = JStr s) →
  feed_entry iso now fs (uri_locator (assoc "uri" fs)) = Some fed →
  assoc "result" fs0 = JArr r1 [JObj ri fi] →
  assoc "tokenAddress" fi = JStr a →
  poll_entry (clock 0%nat).1 (clock 0%nat).2 fi = Some polled →
  let message := on_message iso now (Parsed (JObj r fs)) in
  let poll := fetchFromMoralis clock (Response true (Parsed (JObj r0 fs0))) in
  filter (λ t, strict_eq (address t) (JStr a)) (run poll (run message tokens)) = [polled]
  ∧ filter (λ t, strict_eq (address t) (JStr a)) (run message (run poll tokens)) = [fed].
Proof.
  intros Htx Hmint Hne Huri Hfed Hres Hta Hpolled message poll.
  assert (Ht : truthy (JStr a) = true).
  { simpl. by destruct (String.eqb_spec a ""). }
  assert (Hpoll : ∀ ts, run poll ts = addToken polled ts).
  { intros ts. subst poll.
    rewrite (fetchFromMoralis_entries clock r0 r1 fs0 [JObj ri fi] ts Hres).
    cbn [firstn poll_entries item_fields]. by rewrite Hpolled. }
  assert (Hmsg : ∀ ts, run message ts = addToken fed ts).
  { intros ts. subst message. apply on_message_entry; [done| |done|done]. by rewrite Hmint. }
  assert (Haf : address fed = JStr a).
  { apply feed_entry_Some in Hfed as (cap & progress & _ & _ & ->). exact Hmint. }
  assert (Hap : address polled = JStr a).
  { unfold poll_entry in Hpolled.
    destruct (ToString (price_source fi)); [|discriminate].
    destruct (ToString (cap_source fi)); [|discriminate].
    injection Hpolled as <-. cbn [address]. rewrite Hta. unfold js_or. by rewrite Ht. }
  assert (Hrefl : strict_eq (JStr a) (JStr a)).
  { apply Is_true_true. simpl. apply String.eqb_refl. }
  rewrite !Hpoll, !Hmsg. split.
  - pose proof (addToken_same_id fed polled tokens) as Hone.
    rewrite Haf, Hap in Hone. by apply Hone.
  - pose proof (addToken_same_id polled fed tokens) as Hone.
    rewrite Haf, Hap in Hone. by apply Hone.
Qed.

Lemma last_writer_wins_witness :
  ∃ polled,
    filter (λ t, strict_eq (address t) (JStr "ABC"))
      (run (@fetchFromMoralis no_conversion (λ _, ("t", 2))
              (Response true (Parsed replacing_batch)))
         (run (@on_message no_conversion "t" 1 (Parsed create_message)) []))
    = [polled]
    ∧ logo polled = JStr "L".
Proof.
  eexists.
  destruct (@last_writer_wins no_conversion "t" 1 (λ _, ("t", 2)) 0 1 2 3
              [("txType", JStr "create"); ("mint", JStr "ABC"); ("symbol", JStr "FOO");
               ("marketCapSol", JNum (num_of_Z 10));
               ("vSolInBondingCurve", JNum num_42_5)]
              [("result", JArr 2 [JObj 3 [("tokenAddress", JStr "ABC");
                                          ("logo", JStr "L")]])]
              [("tokenAddress", JStr "ABC"); ("logo", JStr "L")] "ABC" [] _ _
              eq_refl eq_refl ltac:(discriminate) (or_introl eq_refl) eq_refl
              eq_refl eq_refl eq_refl)
    as [Hpoll _].
  split; [exact Hpoll | reflexivity].
Defined.
